(** * Maintainers roster update: [.github/scripts/maintainers/index.js]

    A shallow embedding of the owner extractor ([extractGitHubUsernames]),
    the maintainer collector ([collectCurrentMaintainers]) and the roster
    reconciler ([refreshPreviousMaintainers]), with the properties the
    specification states about them.

    Strings.  A JavaScript string is a sequence of UTF-16 code units.  The
    embedding uses [string], one [ascii] per code unit, which covers every
    text whose code units are below 256 (ASCII and Latin-1); CODEOWNERS files
    and GitHub logins are ASCII.  On that range [is_ws] is exactly the class
    [\s] (and the set removed by [trim]) and [toLowerCase] is exactly
    [String.prototype.toLowerCase].

    Objects.  [currentMaintainers] and the roster records are plain objects:
    lists of own properties in enumeration order, read through
    [Object.prototype] where the code reads them with [o[k]].

    Effects.  [core.warning], [core.debug], [core.info], [core.startGroup],
    [core.endGroup] and the calls of [getGitHubProfile] are recorded, in the
    order they happen, in a trace of [event]s; what the lookup itself reports
    is its own business.  A [TypeError] ends a function at once: [run] keeps
    the state reached at that point. *)

From Stdlib Require Import String Ascii List Bool Arith NArith Lia.
Import ListNotations.
Local Open Scope string_scope.
Local Open Scope list_scope.

(** ** JavaScript strings *)

Module Js.

(** [\s] restricted to code units below 256: TAB, LF, VT, FF, CR, SPACE and
    NO-BREAK SPACE. *)
Definition is_ws (c : ascii) : bool :=
  let n := nat_of_ascii c in
  ((9 <=? n)%nat && (n <=? 13)%nat) || (n =? 32)%nat || (n =? 160)%nat.

(** [toLowerCase] on one code unit: A-Z and the Latin-1 capitals
    (U+00C0-U+00DE without the multiplication sign U+00D7) move up by 32. *)
Definition lower_unit (c : ascii) : ascii :=
  let n := nat_of_ascii c in
  if ((65 <=? n)%nat && (n <=? 90)%nat)
     || ((192 <=? n)%nat && (n <=? 222)%nat && negb (n =? 215)%nat)
  then ascii_of_nat (n + 32)
  else c.

Fixpoint toLowerCase (s : string) : string :=
  match s with
  | "" => ""
  | String c t => String (lower_unit c) (toLowerCase t)
  end.

(** [s.startsWith(p)] *)
Fixpoint startsWith (p s : string) : bool :=
  match p, s with
  | "", _ => true
  | String _ _, "" => false
  | String a p', String b s' => Ascii.eqb a b && startsWith p' s'
  end.

(** [s.includes(c)] for a one-character needle *)
Fixpoint includes (c : ascii) (s : string) : bool :=
  match s with
  | "" => false
  | String d t => Ascii.eqb d c || includes c t
  end.

(** [s.slice(n)] for [0 <= n] *)
Fixpoint slice (n : nat) (s : string) : string :=
  match n, s with
  | 0, _ => s
  | S k, String _ t => slice k t
  | S _, "" => ""
  end.

(** [s.split(c)] for a one-character separator: never empty, the pieces
    between consecutive separators, empty pieces kept. *)
Fixpoint split (sep : ascii) (s : string) : list string :=
  match s with
  | "" => [""]
  | String c t =>
      if Ascii.eqb c sep then "" :: split sep t
      else match split sep t with
           | h :: r => String c h :: r
           | [] => [String c ""]
           end
  end.

Fixpoint trimStart (s : string) : string :=
  match s with
  | "" => ""
  | String c t => if is_ws c then trimStart t else s
  end.

Fixpoint trimEnd (s : string) : string :=
  match s with
  | "" => ""
  | String c t =>
      match trimEnd t with
      | "" => if is_ws c then "" else String c ""
      | r => String c r
      end
  end.

(** [s.trim()] *)
Definition trim (s : string) : string := trimEnd (trimStart s).

(** [s.split(/\s+/)]: [in_sep] tells that the previous code unit belonged to
    the separator being skipped. *)
Fixpoint split_ws_from (in_sep : bool) (s : string) : list string :=
  match s with
  | "" => [""]
  | String c t =>
      if is_ws c then
        if in_sep then split_ws_from true t else "" :: split_ws_from true t
      else match split_ws_from false t with
           | h :: r => String c h :: r
           | [] => [String c ""]
           end
  end.

Definition split_ws (s : string) : list string := split_ws_from false s.

(** The regular expression [/docTriagers:|codeTriagers:/]: the length of the
    alternative that matches at the start of [s], if one does. *)
Definition marker_at (s : string) : option nat :=
  if startsWith "docTriagers:" s then Some 12
  else if startsWith "codeTriagers:" s then Some 13
  else None.

(** Leftmost match of the regular expression in [s]: the text before it and
    the text after it. *)
Fixpoint search_marker (s : string) : option (string * string) :=
  match marker_at s with
  | Some n => Some ("", slice n s)
  | None =>
      match s with
      | "" => None
      | String c t =>
          match search_marker t with
          | Some (pre, post) => Some (String c pre, post)
          | None => None
          end
      end
  end.

(** [s.split(/docTriagers:|codeTriagers:/)]: cut at every match, left to
    right.  Each match consumes at least twelve code units, so [fuel] equal to
    the length of [s] is never exhausted. *)
Fixpoint split_markers_fuel (fuel : nat) (s : string) : list string :=
  match search_marker s with
  | None => [s]
  | Some (pre, post) =>
      match fuel with
      | 0 => [pre; post]
      | S f => pre :: split_markers_fuel f post
      end
  end.

Definition split_markers (s : string) : list string :=
  split_markers_fuel (String.length s) s.

(** [Set.prototype.add] on a set kept in insertion order *)
Definition set_add (x : string) (s : list string) : list string :=
  if existsb (String.eqb x) s then s else s ++ [x].

(** [Array.prototype.includes] on strings *)
Definition array_includes (x : string) (l : list string) : bool :=
  existsb (String.eqb x) l.

End Js.

(** ** Diagnostics and values *)

(** A JavaScript value, as far as the roster needs them. *)
Inductive value : Type :=
| VUndefined
| VBool (b : bool)
| VNum (n : nat)
| VStr (s : string)
| VArr (l : list string).

(** A plain object: its own enumerable properties in enumeration order. *)
Definition props (A : Type) : Type := list (string * A).

Definition obj : Type := props value.

Inductive event : Type :=
| StartGroup (title : string)
| EndGroup
| Debug (msg : string)
| Info (msg : string)
| Warning (msg : string)
| GetGitHubProfile (login : string) (result : option obj).

(** ** Owner extractor *)

Definition nl : ascii := "010"%char.

(** [splitByWhitespace] *)
Definition splitByWhitespace (line : string) : list string :=
  Js.split_ws (Js.trim line).

(** The test of line 61: the token is skipped. *)
Definition rejected (owner : string) : bool :=
  negb (Js.startsWith "@" owner) || Js.includes "/" owner.

Definition skipping (owner : string) : string :=
  "Skipping '" ++ owner ++ "' as emails and teams are not supported yet".

(** Lines 49-54: AsyncAPI custom owners taken from the comment. *)
Definition customOwners (comment : string) (uniqueOwners : list string)
  : list string :=
  match nth_error (Js.split_markers comment) 1 with
  | Some "" => uniqueOwners
  | Some triagers =>
      fold_left (fun u owner => Js.set_add owner u)
                (splitByWhitespace triagers) uniqueOwners
  | None => uniqueOwners
  end.

(** Lines 56-66: GitHub native code owners of the declaration part. *)
Definition nativeOwners (ownersLine : string)
  (st : list string * list event) : list string * list event :=
  fold_left
    (fun '(u, log) owner =>
       if rejected owner then (u, log ++ [Warning (skipping owner)])
       else (Js.set_add (Js.slice 1 owner) u, log))
    (tl (splitByWhitespace ownersLine)) st.

(** The destructuring [const [ownersLine, comment = ""] = line.split("#")] *)
Definition ownersLine_of (line : string) : string :=
  nth 0 (Js.split "#" line) "".

Definition comment_of (line : string) : string :=
  nth 1 (Js.split "#" line) "".

(** One iteration of the loop over the lines. *)
Definition extract_line (st : list string * list event) (line : string)
  : list string * list event :=
  nativeOwners (ownersLine_of line)
               (customOwners (comment_of line) (fst st), snd st).

(** [extractGitHubUsernames]: the owners in iteration order of the [Set] and
    the warnings sent to [core]. *)
Definition extractGitHubUsernames (codeownersContent : string)
  : list string * list event :=
  if String.eqb codeownersContent "" then ([], [])
  else fold_left extract_line (Js.split nl codeownersContent) ([], []).

(** [getCommaSeparatedInputList]; [None] is an environment variable that is
    not set. *)
Definition getCommaSeparatedInputList (input : option string) : list string :=
  match input with
  | Some l =>
      filter (fun item => negb (String.eqb item ""))
             (map Js.trim (Js.split "," l))
  | None => []
  end.

(** ** Plain objects *)

Module Obj.

(** Property names every plain object inherits from [Object.prototype]; all
    of them hold functions or objects, so reading one is truthy, and none of
    those has a [repos] or [githubID] property. *)
Definition prototype_names : list string :=
  [ "constructor"; "hasOwnProperty"; "isPrototypeOf"; "propertyIsEnumerable";
    "toLocaleString"; "toString"; "valueOf"; "__proto__";
    "__defineGetter__"; "__defineSetter__";
    "__lookupGetter__"; "__lookupSetter__" ].

Definition inherited (k : string) : bool :=
  existsb (String.eqb k) prototype_names.

(** The result of reading [o[k]] on a plain object. *)
Inductive lookup (A : Type) : Type :=
| Own (a : A)
| Inherited
| Absent.
Arguments Own {A} a.
Arguments Inherited {A}.
Arguments Absent {A}.

Fixpoint own_get {A : Type} (o : props A) (k : string) : option A :=
  match o with
  | [] => None
  | (k', a) :: r => if String.eqb k' k then Some a else own_get r k
  end.

Definition has_own {A : Type} (o : props A) (k : string) : bool :=
  match own_get o k with Some _ => true | None => false end.

(** [o[k]]: an own property first, then the prototype. *)
Definition get {A : Type} (o : props A) (k : string) : lookup A :=
  match own_get o k with
  | Some a => Own a
  | None => if inherited k then Inherited else Absent
  end.

(** [o.k] where [o] is an object whose own properties hold values and [k] is
    no name of the prototype: [undefined] when the property is missing. *)
Definition field (o : obj) (k : string) : value :=
  match own_get o k with Some v => v | None => VUndefined end.

Definition is_digit (c : ascii) : bool :=
  let n := nat_of_ascii c in (48 <=? n)%nat && (n <=? 57)%nat.

Fixpoint all_digits (s : string) : bool :=
  match s with
  | "" => true
  | String c t => is_digit c && all_digits t
  end.

Fixpoint decimal (acc : N) (s : string) : N :=
  match s with
  | "" => acc
  | String c t => decimal (acc * 10 + (N_of_ascii c - 48))%N t
  end.

(** An array index: the canonical decimal form of an integer in
    [0, 2^32 - 2].  Such keys are enumerated first, in ascending order. *)
Definition array_index (k : string) : option N :=
  match k with
  | "" => None
  | String c t =>
      if all_digits k && (String.length k <=? 10)%nat
         && (negb (Ascii.eqb c "0") || String.eqb t "")
         && (decimal 0 k <=? 4294967294)%N
      then Some (decimal 0 k)
      else None
  end.

Fixpoint replace {A : Type} (k : string) (a : A) (o : props A) : props A :=
  match o with
  | [] => []
  | (k', a') :: r =>
      if String.eqb k' k then (k, a) :: r else (k', a') :: replace k a r
  end.

Fixpoint insert_index {A : Type} (n : N) (k : string) (a : A) (o : props A)
  : props A :=
  match o with
  | [] => [(k, a)]
  | (k', a') :: r =>
      match array_index k' with
      | Some m =>
          if (n <? m)%N then (k, a) :: o else (k', a') :: insert_index n k a r
      | None => (k, a) :: o
      end
  end.

(** [o[k] = a]: an existing property keeps its place; a new one goes after
    the others, except that array indices stay sorted in front. *)
Definition set {A : Type} (o : props A) (k : string) (a : A) : props A :=
  if has_own o k then replace k a o
  else match array_index k with
       | Some n => insert_index n k a o
       | None => o ++ [(k, a)]
       end.

(** [delete o[k]] *)
Definition delete {A : Type} (o : props A) (k : string) : props A :=
  filter (fun p => negb (String.eqb (fst p) k)) o.

(** [Object.values(o)] *)
Definition values {A : Type} (o : props A) : list A := map snd o.

Definition keys {A : Type} (o : props A) : list string := map fst o.

End Obj.

(** ** Control: a loop body may throw *)

Inductive run (A : Type) : Type :=
| Done (a : A)
| Thrown (a : A).
Arguments Done {A} a.
Arguments Thrown {A} a.

Definition state_of {A : Type} (r : run A) : A :=
  match r with Done a | Thrown a => a end.

(** [for (const x of l) body]: the first iteration that throws ends the loop. *)
Fixpoint for_of {A B : Type} (body : A -> B -> run A) (l : list B) (a : A)
  : run A :=
  match l with
  | [] => Done a
  | x :: r =>
      match body a x with
      | Done a' => for_of body r a'
      | Thrown a' => Thrown a'
      end
  end.

(** ** Maintainer collector *)

(** One element of [codeownersFiles]. *)
Record codeowners : Type := { repo : string; content : string }.

Section Collector.

(** The profile lookup of [gh_calls.js]: it answers with a profile or with
    nothing, and may depend on, and change, the state of the outside world
    (API quota, cache). *)
Variable World : Type.
Variable getGitHubProfile : World -> string -> option obj * World.

(** [config.ignoredUsers] *)
Variable ignoredUsers : list string.

Record cstate : Type := {
  currentMaintainers : props obj;
  world : World;
  trace : list event
}.

Definition on_ignore_list (r owner : string) : string :=
  "[repo: " ++ r ++ "]: The user '" ++ owner
    ++ "' is on the ignore list. Skipping...".

Definition profile_not_found (r owner : string) : string :=
  "[repo: " ++ r ++ "]: GitHub profile not found for " ++ owner ++ ".".

(** Line 100: [currentMaintainers[key].repos.push(codeowners.repo)].  Reading
    [repos] of a missing value, or calling [push] on what is no array, is a
    [TypeError]. *)
Definition push_repo (cm : props obj) (key r : string) : option (props obj) :=
  match Obj.get cm key with
  | Obj.Own entry =>
      match Obj.own_get entry "repos" with
      | Some (VArr l) =>
          Some (Obj.set cm key (Obj.set entry "repos" (VArr (l ++ [r]))))
      | _ => None
      end
  | Obj.Inherited => None
  | Obj.Absent => None
  end.

Definition pushed (cm : props obj) (w : World) (tr : list event)
  (key r : string) : run cstate :=
  match push_repo cm key r with
  | Some cm' =>
      Done {| currentMaintainers := cm'; world := w; trace := tr |}
  | None => Thrown {| currentMaintainers := cm; world := w; trace := tr |}
  end.

(** Lines 79-101: the body of the loop over the owners of one file. *)
Definition collect_owner (r : string) (st : cstate) (owner : string)
  : run cstate :=
  let cm := currentMaintainers st in
  if Js.array_includes owner ignoredUsers then
    Done {| currentMaintainers := cm; world := world st;
            trace := trace st ++ [Debug (on_ignore_list r owner)] |}
  else
    let key := Js.toLowerCase owner in
    match Obj.get cm key with
    | Obj.Absent =>
        let (profile, w) := getGitHubProfile (world st) owner in
        let tr := trace st ++ [GetGitHubProfile owner profile] in
        match profile with
        | None =>
            Done {| currentMaintainers := cm; world := w;
                    trace := tr ++ [Warning (profile_not_found r owner)] |}
        | Some p =>
            pushed (Obj.set cm key (Obj.set p "repos" (VArr []))) w tr key r
        end
    | _ => pushed cm (world st) (trace st) key r
    end.

(** Lines 76-102: the body of the loop over the files. *)
Definition collect_file (st : cstate) (f : codeowners) : run cstate :=
  let (owners, warnings) := extractGitHubUsernames (content f) in
  for_of (collect_owner (repo f)) owners
         {| currentMaintainers := currentMaintainers st; world := world st;
            trace := trace st ++ warnings |}.

Definition collect_start (w : World) : cstate :=
  {| currentMaintainers := []; world := w;
     trace :=
       [StartGroup "Fetching  GitHub profile information for each codeowner"]
  |}.

(** [collectCurrentMaintainers]: the returned map is [currentMaintainers] of
    the final state. *)
Definition collectCurrentMaintainers (codeownersFiles : list codeowners)
  (w : World) : run cstate :=
  match for_of collect_file codeownersFiles (collect_start w) with
  | Done st =>
      Done {| currentMaintainers := currentMaintainers st; world := world st;
              trace := trace st ++ [EndGroup] |}
  | Thrown st => Thrown st
  end.

End Collector.

Arguments currentMaintainers {World} c.
Arguments world {World} c.
Arguments trace {World} c.

(** ** Roster reconciler *)

Record rstate : Type := {
  remaining : props obj;          (* the caller's [currentMaintainers] *)
  updatedMaintainers : list obj;
  rtrace : list event
}.

Definition not_found_removing (github : string) : string :=
  "The previous " ++ github
    ++ " maintainer was not found in any CODEOWNERS file. Removing...".

(** Lines 131-135: a copy of [previousEntry] with [repos] and [githubID] set.
    Copying the properties of an object in enumeration order into an empty
    object gives the same enumeration. *)
Definition updated_entry (previousEntry : obj) (repos githubID : value) : obj :=
  Obj.set (Obj.set previousEntry "repos" repos) "githubID" githubID.

(** Lines 120-136: the body of the loop.  [previousEntry.github.toLowerCase()]
    throws when [github] is no string. *)
Definition refresh_entry (st : rstate) (previousEntry : obj) : run rstate :=
  match Obj.own_get previousEntry "github" with
  | Some (VStr github) =>
      let key := Js.toLowerCase github in
      match Obj.get (remaining st) key with
      | Obj.Absent =>
          Done {| remaining := remaining st;
                  updatedMaintainers := updatedMaintainers st;
                  rtrace := rtrace st ++ [Info (not_found_removing github)] |}
      | Obj.Own currentMaintainer =>
          Done {| remaining := Obj.delete (remaining st) key;
                  updatedMaintainers :=
                    updatedMaintainers st
                      ++ [updated_entry previousEntry
                            (Obj.field currentMaintainer "repos")
                            (Obj.field currentMaintainer "githubID")];
                  rtrace := rtrace st |}
      | Obj.Inherited =>
          Done {| remaining := Obj.delete (remaining st) key;
                  updatedMaintainers :=
                    updatedMaintainers st
                      ++ [updated_entry previousEntry VUndefined VUndefined];
                  rtrace := rtrace st |}
      end
  | _ => Thrown st
  end.

Definition refresh_start (current : props obj) : rstate :=
  {| remaining := current; updatedMaintainers := [];
     rtrace := [StartGroup "Refreshing previous maintainers list"] |}.

(** [refreshPreviousMaintainers]: [updatedMaintainers] of the result is the
    returned array, [remaining] is the caller's map after the call. *)
Definition refreshPreviousMaintainers (previousMaintainers : list obj)
  (current : props obj) : run rstate :=
  match for_of refresh_entry previousMaintainers (refresh_start current) with
  | Done st =>
      Done {| remaining := remaining st;
              updatedMaintainers :=
                updatedMaintainers st ++ Obj.values (remaining st);
              rtrace := rtrace st ++ [EndGroup] |}
  | Thrown st => Thrown st
  end.

(** ** The specification's vocabulary *)

Module Spec.

(** The whitespace-separated tokens of a text: its maximal runs of
    non-whitespace code units, left to right. *)
Fixpoint words (s : string) : list string :=
  match s with
  | "" => []
  | String c t =>
      if Js.is_ws c then words t
      else match t with
           | "" => [String c ""]
           | String d _ =>
               if Js.is_ws d then String c "" :: words t
               else match words t with
                    | h :: r => String c h :: r
                    | [] => [String c ""]
                    end
           end
  end.

(** The text before the first occurrence of [c]. *)
Fixpoint before (c : ascii) (s : string) : string :=
  match s with
  | "" => ""
  | String d t => if Ascii.eqb d c then "" else String d (before c t)
  end.

(** [c] occurs in [s]. *)
Definition occurs (c : ascii) (s : string) : Prop :=
  In c (list_ascii_of_string s).

(** A text that holds only whitespace (the empty text too). *)
Fixpoint blank (s : string) : bool :=
  match s with
  | "" => true
  | String c t => Js.is_ws c && blank t
  end.

(** No match of a triager marker starts at one of the first [n] positions of
    [s]. *)
Fixpoint no_marker_in (n : nat) (s : string) : bool :=
  match n with
  | 0 => true
  | S k =>
      match Js.marker_at s with
      | Some _ => false
      | None =>
          match s with
          | "" => true
          | String _ t => no_marker_in k t
          end
      end
  end.

(** Adding the elements of a list to a set, first to last. *)
Definition add_all (l u : list string) : list string :=
  fold_left (fun s x => Js.set_add x s) l u.

(** *** Roster records *)

(** A roster record carries a [github] field that is a string. *)
Definition has_github (r : obj) : bool :=
  match Obj.own_get r "github" with
  | Some (VStr _) => true
  | _ => false
  end.

(** The key of a roster record: its [github] field, lower-cased. *)
Definition record_key (r : obj) : string :=
  match Obj.own_get r "github" with
  | Some (VStr github) => Js.toLowerCase github
  | _ => ""
  end.

Definition record_github (r : obj) : string :=
  match Obj.own_get r "github" with
  | Some (VStr github) => github
  | _ => ""
  end.

(** The map without the keys listed in [ks]. *)
Definition without (ks : list string) (current : props obj) : props obj :=
  filter (fun p => negb (Js.array_includes (fst p) ks)) current.

(** The updated records: a previous record is kept when its key is a key of
    the current map and no earlier previous record has the same key.
    [earlier] holds the keys of the records already passed. *)
Fixpoint updated_records (earlier : list string) (previous : list obj)
  (current : props obj) : list obj :=
  match previous with
  | [] => []
  | r :: rest =>
      let k := record_key r in
      let tail := updated_records (k :: earlier) rest current in
      match Obj.own_get current k with
      | Some e =>
          if Js.array_includes k earlier then tail
          else updated_entry r (Obj.field e "repos") (Obj.field e "githubID")
                 :: tail
      | None => tail
      end
  end.

(** The removal notices, one for each previous record that is not kept. *)
Fixpoint removal_notices (earlier : list string) (previous : list obj)
  (current : props obj) : list event :=
  match previous with
  | [] => []
  | r :: rest =>
      let k := record_key r in
      let tail := removal_notices (k :: earlier) rest current in
      match Obj.own_get current k with
      | Some e =>
          if Js.array_includes k earlier
          then Info (not_found_removing (record_github r)) :: tail
          else tail
      | None => Info (not_found_removing (record_github r)) :: tail
      end
  end.

(** The fresh records: the entries of the current map whose key is the key
    of no previous record, in the order of the map. *)
Definition fresh_records (previous : list obj) (current : props obj)
  : list obj :=
  Obj.values (without (map record_key previous) current).

(** The roster as the claim words it: every previous record whose key is a
    key of the current map, updated, then the fresh records. *)
Definition claimed_roster (previous : list obj) (current : props obj)
  : list obj :=
  flat_map
    (fun r =>
       match Obj.own_get current (record_key r) with
       | Some e =>
           [updated_entry r (Obj.field e "repos") (Obj.field e "githubID")]
       | None => []
       end)
    previous
  ++ fresh_records previous current.

(** The key of the record is no property name of [Object.prototype]. *)
Definition no_prototype_key (r : obj) : bool :=
  negb (Obj.inherited (record_key r)).

(** *** Collection passes *)

(** The lower-cased usernames of the profile lookups of a trace, in order. *)
Definition lookup_keys (tr : list event) : list string :=
  flat_map
    (fun e =>
       match e with
       | GetGitHubProfile login _ => [Js.toLowerCase login]
       | _ => []
       end)
    tr.

(** The same for the lookups that returned a profile. *)
Definition profile_keys (tr : list event) : list string :=
  flat_map
    (fun e =>
       match e with
       | GetGitHubProfile login (Some _) => [Js.toLowerCase login]
       | _ => []
       end)
    tr.

(** After a lookup that returned a profile, the trace holds no lookup for the
    same lower-cased username. *)
Definition no_lookup_after_profile (tr : list event) : Prop :=
  forall before login profile after,
    tr = before ++ GetGitHubProfile login (Some profile) :: after ->
    ~ In (Js.toLowerCase login) (lookup_keys after).

(** Every username whose lookup returned a profile has an entry. *)
Definition profiles_recorded (cm : props obj) (tr : list event) : Prop :=
  forall k, In k (profile_keys tr) -> Obj.own_get cm k <> None.

(** The key [k] has no entry and no lookup was made for it. *)
Definition untouched_key (k : string) (cm : props obj) (tr : list event)
  : Prop :=
  Obj.own_get cm k = None /\ ~ In k (lookup_keys tr).

(** The [repos] list of the entry of key [k]; empty without such an entry. *)
Definition repos_of (cm : props obj) (k : string) : list string :=
  match Obj.own_get cm k with
  | Some entry =>
      match Obj.own_get entry "repos" with
      | Some (VArr l) => l
      | _ => []
      end
  | None => []
  end.

(** Every entry of the map has an array as [repos]. *)
Definition array_repos (cm : props obj) : Prop :=
  forall k entry,
    Obj.own_get cm k = Some entry ->
    exists l, Obj.own_get entry "repos" = Some (VArr l).

(** The spellings, among [owners], of the username whose key is [k]. *)
Definition spellings (k : string) (owners : list string) : list string :=
  filter (fun o => String.eqb (Js.toLowerCase o) k) owners.

End Spec.


(** ** Sample collaborators *)

Module Sample.

(** A lookup that finds every login; the world counts the calls. *)
Definition found (w : nat) (login : string) : option obj * nat :=
  (Some [("github", VStr login); ("githubID", VNum w)], S w).

(** A lookup that finds nobody. *)
Definition missing (w : nat) (login : string) : option obj * nat :=
  (None, S w).

Definition doc (r c : string) : codeowners := {| repo := r; content := c |}.

End Sample.

(** ** Further vocabulary *)

Module Vocab.

(** The text without its whitespace. *)
Fixpoint strip_ws (s : string) : string :=
  match s with
  | "" => ""
  | String c t => if Js.is_ws c then strip_ws t else String c (strip_ws t)
  end.

(** The candidate owners of a line: the tokens of its declaration part after
    the first. *)
Definition candidates (line : string) : list string :=
  tl (Spec.words (Spec.before "#" line)).

(** [o] comes from an accepted candidate of [line]. *)
Definition native_owner (line o : string) : Prop :=
  exists t, In t (candidates line) /\ rejected t = false /\ o = Js.slice 1 t.

(** Document [f] of repository [r], one of [files], names the owner [o]. *)
Definition declares (files : list codeowners) (r o : string) : Prop :=
  exists f,
    In f files /\ repo f = r
    /\ In o (fst (extractGitHubUsernames (content f))).

(** Where an entry of the map comes from: a lookup that returned the profile
    it copies, and documents that name the user for each of its [repos]. *)
Definition entry_from (files : list codeowners) (ignoredUsers : list string)
  (tr : list event) (k : string) (e : obj) : Prop :=
  (exists o p,
      In (GetGitHubProfile o (Some p)) tr /\ Js.toLowerCase o = k
      /\ forall fld, fld <> "repos" -> Obj.own_get e fld = Obj.own_get p fld)
  /\ exists l,
      Obj.own_get e "repos" = Some (VArr l) /\ l <> []
      /\ forall r, In r l ->
           exists o, declares files r o /\ Js.toLowerCase o = k
                     /\ Js.array_includes o ignoredUsers = false.

(** A lookup is made for a declared owner that is not ignored and not named
    after a property of [Object.prototype]. *)
Definition lookup_from (files : list codeowners) (ignoredUsers : list string)
  (e : event) : Prop :=
  match e with
  | GetGitHubProfile o _ =>
      Js.array_includes o ignoredUsers = false
      /\ Obj.inherited (Js.toLowerCase o) = false
      /\ exists r, declares files r o
  | _ => True
  end.

Definition sound (files : list codeowners) (ignoredUsers : list string)
  (cm : props obj) (tr : list event) : Prop :=
  (forall k e, Obj.own_get cm k = Some e ->
               entry_from files ignoredUsers tr k e)
  /\ (forall ev, In ev tr -> lookup_from files ignoredUsers ev)
  /\ (forall k, Obj.inherited k = true -> Obj.own_get cm k = None).

(** The number of removal notices of a trace. *)
Definition removals (tr : list event) : nat :=
  List.length
    (filter (fun e => match e with Info _ => true | _ => false end) tr).

End Vocab.
(** ** Whitespace splitting *)

Lemma split_ws_from_start (b : bool) (c : ascii) (t : string) :
  Js.is_ws c = false ->
  Js.split_ws_from b (String c t) = Js.split_ws_from true (String c t).
Proof. intros H. simpl. now rewrite H. Qed.

Lemma split_ws_from_cons (b : bool) (c : ascii) (t : string) :
  Js.is_ws c = false ->
  Js.split_ws_from b (String c t) =
  match Js.split_ws_from false t with
  | h :: r => String c h :: r
  | [] => [String c ""]
  end.
Proof. intros H. simpl. now rewrite H. Qed.

Lemma words_cons_cons (c d : ascii) (t : string) :
  Js.is_ws c = false -> Js.is_ws d = false ->
  Spec.words (String c (String d t)) =
  match Spec.words (String d t) with
  | h :: r => String c h :: r
  | [] => [String c ""]
  end.
Proof. intros Hc Hd. cbn [Spec.words]. now rewrite Hc, Hd. Qed.

Lemma trimEnd_blank (s : string) :
  Spec.blank s = true -> Js.trimEnd s = "".
Proof.
  induction s as [|c t IH]; simpl; [reflexivity|].
  intros H. apply andb_prop in H as [Hc Ht].
  now rewrite (IH Ht), Hc.
Qed.

Lemma trimEnd_cons (c : ascii) (t : string) :
  Spec.blank (String c t) = false ->
  Js.trimEnd (String c t) = String c (Js.trimEnd t).
Proof.
  simpl. intros H.
  destruct (Js.trimEnd t) as [|d r] eqn:E; [|reflexivity].
  destruct (Js.is_ws c) eqn:Hc; [|reflexivity].
  simpl in H.
  assert (Hb : Spec.blank t = false) by exact H. clear H.
  exfalso. revert E Hb. clear. induction t as [|c t IH]; simpl.
  - discriminate.
  - destruct (Js.trimEnd t).
    + destruct (Js.is_ws c); simpl; [auto|discriminate].
    + discriminate.
Qed.

Lemma words_blank (s : string) : Spec.blank s = true -> Spec.words s = [].
Proof.
  induction s as [|c t IH]; simpl; [reflexivity|].
  intros H. apply andb_prop in H as [Hc Ht]. now rewrite Hc, IH.
Qed.

Lemma words_not_blank (s : string) :
  Spec.blank s = false -> Spec.words s <> [].
Proof.
  induction s as [|c t IH]; simpl; [discriminate|].
  destruct (Js.is_ws c); simpl.
  - exact IH.
  - intros _. destruct t as [|d t']; [discriminate|].
    destruct (Js.is_ws d); [discriminate|].
    destruct (Spec.words (String d t')); discriminate.
Qed.

Lemma split_ws_trimEnd (s : string) :
  Spec.blank s = false ->
  Js.split_ws_from true (Js.trimEnd s) = Spec.words s.
Proof.
  induction s as [|c t IH]; [discriminate|].
  intros H. rewrite (trimEnd_cons _ _ H).
  destruct (Js.is_ws c) eqn:Hc.
  - simpl in H. rewrite Hc in H. simpl in H.
    cbn [Js.split_ws_from Spec.words]. rewrite Hc. now apply IH.
  - destruct (Spec.blank t) eqn:Hb.
    + rewrite (trimEnd_blank _ Hb).
      cbn [Js.split_ws_from Spec.words]. rewrite Hc.
      destruct t as [|d t']; [reflexivity|].
      simpl in Hb. apply andb_prop in Hb as [Hd Hb'].
      rewrite Hd. f_equal. simpl. rewrite Hd. symmetry. now apply words_blank.
    + specialize (IH eq_refl).
      destruct t as [|d t']; [discriminate|].
      rewrite (trimEnd_cons _ _ Hb) in *.
      rewrite (split_ws_from_cons _ _ _ Hc).
      destruct (Js.is_ws d) eqn:Hd.
      * cbn [Js.split_ws_from Spec.words] in *. rewrite Hc, Hd in *.
        now rewrite IH.
      * rewrite (split_ws_from_start false d _ Hd), IH.
        now rewrite words_cons_cons.
Qed.

Lemma trimStart_blank (s : string) :
  Spec.blank s = true -> Js.trimStart s = "".
Proof.
  induction s as [|c t IH]; simpl; [reflexivity|].
  intros H. apply andb_prop in H as [Hc Ht]. now rewrite Hc, IH.
Qed.

Lemma trimStart_not_blank (s : string) :
  Spec.blank s = false ->
  exists c t, Js.trimStart s = String c t /\ Js.is_ws c = false
              /\ Spec.blank (String c t) = false
              /\ Spec.words (String c t) = Spec.words s.
Proof.
  induction s as [|c t IH]; [discriminate|].
  simpl. destruct (Js.is_ws c) eqn:Hc; simpl.
  - intros H. destruct (IH H) as (d & r & E & Hd & Hb & Hw).
    exists d, r. repeat split; assumption.
  - intros _. exists c, t. simpl. now rewrite Hc.
Qed.

(** [splitByWhitespace] gives the whitespace-separated tokens of its
    argument, and the one-element list [[""]] when there is none. *)
Lemma splitByWhitespace_words (s : string) :
  splitByWhitespace s =
  match Spec.words s with
  | [] => [""]
  | w => w
  end.
Proof.
  unfold splitByWhitespace, Js.trim, Js.split_ws.
  destruct (Spec.blank s) eqn:Hb.
  - rewrite (trimStart_blank _ Hb), (words_blank _ Hb). reflexivity.
  - destruct (trimStart_not_blank _ Hb) as (c & t & E & Hc & Hb' & Hw).
    rewrite E, (trimEnd_cons _ _ Hb').
    rewrite (split_ws_from_start false c _ Hc).
    rewrite <- (trimEnd_cons _ _ Hb'), (split_ws_trimEnd _ Hb'), Hw.
    pose proof (words_not_blank _ Hb) as Hn.
    destruct (Spec.words s); [contradiction|reflexivity].
Qed.

Lemma tl_splitByWhitespace (s : string) :
  tl (splitByWhitespace s) = tl (Spec.words s).
Proof.
  rewrite splitByWhitespace_words. now destruct (Spec.words s).
Qed.

(** ** Owner extractor: the declaration path *)

Lemma ownersLine_before (line : string) :
  ownersLine_of line = Spec.before "#" line.
Proof.
  unfold ownersLine_of. induction line as [|c t IH]; simpl; [reflexivity|].
  destruct (Ascii.eqb c "#"); [reflexivity|].
  destruct (Js.split "#" t); simpl in *; now rewrite <- IH.
Qed.

Lemma includes_occurs (c : ascii) (s : string) :
  Js.includes c s = true <-> Spec.occurs c s.
Proof.
  unfold Spec.occurs. induction s as [|d t IH]; simpl.
  - split; [discriminate|tauto].
  - rewrite orb_true_iff, IH, Ascii.eqb_eq. tauto.
Qed.

Lemma rejected_false_iff (t : string) :
  rejected t = false <->
  (exists r, t = String "@" r) /\ ~ Spec.occurs "/" t.
Proof.
  unfold rejected. rewrite orb_false_iff, negb_false_iff.
  rewrite <- includes_occurs, not_true_iff_false.
  split; intros [H1 H2]; split; trivial.
  - destruct t as [|c r]; cbn [Js.startsWith] in H1; [discriminate|].
    apply andb_prop in H1 as [H1 _]. apply Ascii.eqb_eq in H1 as <-.
    now exists r.
  - destruct H1 as [r ->]. reflexivity.
Qed.

Lemma native_loop (tokens : list string) :
  forall (u : list string) (log : list event),
    fold_left
      (fun '(u, log) owner =>
         if rejected owner then (u, log ++ [Warning (skipping owner)])
         else (Js.set_add (Js.slice 1 owner) u, log))
      tokens (u, log) =
    (Spec.add_all
       (map (Js.slice 1) (filter (fun t => negb (rejected t)) tokens)) u,
     log ++ map (fun t => Warning (skipping t)) (filter rejected tokens)).
Proof.
  unfold Spec.add_all.
  induction tokens as [|t ts IH]; intros u log; simpl.
  - now rewrite app_nil_r.
  - destruct (rejected t); simpl; rewrite IH; [|reflexivity].
    now rewrite <- app_assoc.
Qed.

Lemma set_add_In (x y : string) (u : list string) :
  In x (Js.set_add y u) <-> x = y \/ In x u.
Proof.
  unfold Js.set_add. destruct (existsb (String.eqb y) u) eqn:E.
  - split; [tauto|]. intros [->|H]; [|exact H].
    apply existsb_exists in E as (z & Hz & Ez).
    apply String.eqb_eq in Ez. now subst.
  - rewrite in_app_iff. cbn. intuition congruence.
Qed.

Lemma add_all_In (x : string) (l u : list string) :
  In x (Spec.add_all l u) <-> In x l \/ In x u.
Proof.
  unfold Spec.add_all. revert u.
  induction l as [|y l IH]; intros u; cbn [fold_left]; [cbn; tauto|].
  rewrite IH, set_add_In. cbn. intuition congruence.
Qed.

(** C5.  On every line, the declaration path splits the text before the first
    '#' into its whitespace-separated tokens and drops the first one; a later
    token is accepted exactly when it starts with '@' and holds no '/'; the
    accepted tokens are added to the set without their first character, the
    '@'; each other token gives one warning naming it and leaves the set as it
    is.  So an identifier is in the set after the line exactly when it was in
    the set the declaration path started from or, with '@' in front, it is
    one of those later tokens and holds no '/'. *)
Theorem extract_line_native (line : string) (u : list string)
  (log : list event) :
  let tokens := tl (Spec.words (Spec.before "#" line)) in
  extract_line (u, log) line =
    (Spec.add_all
       (map (Js.slice 1) (filter (fun t => negb (rejected t)) tokens))
       (customOwners (comment_of line) u),
     log ++ map (fun t => Warning (skipping t)) (filter rejected tokens))
  /\ (forall o,
        In o (fst (extract_line (u, log) line)) <->
        In o (customOwners (comment_of line) u)
        \/ (In (String "@" o) tokens /\ ~ Spec.occurs "/" (String "@" o)))
  /\ (forall t, rejected t = false <->
                (exists r, t = String "@" r) /\ ~ Spec.occurs "/" t)
  /\ (forall r, Js.slice 1 (String "@" r) = r).
Proof.
  intros tokens.
  assert (E : extract_line (u, log) line =
              (Spec.add_all
                 (map (Js.slice 1)
                      (filter (fun t => negb (rejected t)) tokens))
                 (customOwners (comment_of line) u),
               log ++ map (fun t => Warning (skipping t))
                          (filter rejected tokens))).
  { unfold extract_line, nativeOwners. simpl fst. simpl snd.
    rewrite tl_splitByWhitespace, ownersLine_before. apply native_loop. }
  split; [exact E|]. split; [|split].
  - intros o. rewrite E. cbn [fst]. rewrite add_all_In, in_map_iff. split.
    + intros [(t & <- & Ht)|H]; [|now left].
      apply filter_In in Ht as [Ht Hr]. apply negb_true_iff in Hr.
      apply rejected_false_iff in Hr as [[r ->] Hslash].
      right. now split.
    + intros [H|[Ht Hslash]]; [now right|].
      left. exists (String "@" o). split; [reflexivity|].
      apply filter_In. split; [exact Ht|].
      apply negb_true_iff, rejected_false_iff. split; [now exists o|].
      exact Hslash.
  - exact rejected_false_iff.
  - reflexivity.
Qed.

Lemma extract_line_native_witness :
  extract_line (["carol"], [])
    "/docs/* @alice @org/team bob@example.com @Bob @alice # reviewers"
  = (["carol"; "alice"; "Bob"],
     [Warning (skipping "@org/team"); Warning (skipping "bob@example.com")])
  /\ (In "Bob"
         (fst (extract_line (["carol"], [])
                 "/docs/* @alice @org/team bob@example.com @Bob @alice # reviewers"))
      <-> In "Bob" (customOwners (comment_of
                 "/docs/* @alice @org/team bob@example.com @Bob @alice # reviewers")
                 ["carol"])
          \/ (In "@Bob"
                 (tl (Spec.words (Spec.before "#"
                 "/docs/* @alice @org/team bob@example.com @Bob @alice # reviewers")))
              /\ ~ Spec.occurs "/" "@Bob")).
Proof.
  destruct (extract_line_native
              "/docs/* @alice @org/team bob@example.com @Bob @alice # reviewers"
              ["carol"] []) as (E & M & _).
  split; [rewrite E; reflexivity|apply M].
Defined.

(** ** Owner extractor: the triager annotation *)

Lemma search_marker_unfold (s : string) :
  Js.search_marker s =
  match Js.marker_at s with
  | Some n => Some ("", Js.slice n s)
  | None =>
      match s with
      | "" => None
      | String c t =>
          match Js.search_marker t with
          | Some (pre, post) => Some (String c pre, post)
          | None => None
          end
      end
  end.
Proof. destruct s; reflexivity. Qed.

Lemma search_marker_skip (pre x : string) :
  Spec.no_marker_in (String.length pre) (pre ++ x) = true ->
  Js.search_marker (pre ++ x) =
  match Js.search_marker x with
  | Some (p, q) => Some ((pre ++ p)%string, q)
  | None => None
  end.
Proof.
  induction pre as [|c t IH].
  - intros _. simpl. now destruct (Js.search_marker x) as [[p q]|].
  - cbn [String.length Spec.no_marker_in append].
    rewrite (search_marker_unfold (String c (t ++ x))).
    destruct (Js.marker_at (String c (t ++ x))); [discriminate|].
    intros H. rewrite (IH H).
    now destruct (Js.search_marker x) as [[p q]|].
Qed.

Lemma search_marker_none (s : string) :
  Spec.no_marker_in (S (String.length s)) s = true ->
  Js.search_marker s = None.
Proof.
  induction s as [|c t IH]; cbn [String.length Spec.no_marker_in].
  - reflexivity.
  - rewrite (search_marker_unfold (String c t)).
    destruct (Js.marker_at (String c t)); [discriminate|].
    intros H. now rewrite (IH H).
Qed.

Lemma search_marker_here (m rest : string) :
  m = "docTriagers:" \/ m = "codeTriagers:" ->
  Js.search_marker (m ++ rest) = Some ("", rest).
Proof. intros [-> | ->]; reflexivity. Qed.

Lemma search_marker_at (s : string) :
  Js.marker_at s <> None -> exists q, Js.search_marker s = Some ("", q).
Proof.
  rewrite search_marker_unfold.
  destruct (Js.marker_at s) as [n|]; [|contradiction].
  intros _. now exists (Js.slice n s).
Qed.

Lemma append_empty_r (s : string) : (s ++ "")%string = s.
Proof. induction s; simpl; congruence. Qed.

Lemma length_append (s t : string) :
  String.length (s ++ t) = String.length s + String.length t.
Proof. induction s; simpl; congruence. Qed.

(** The piece that [customOwners] reads: the text between the first marker
    and the next one. *)
Lemma split_markers_second (pre m seg rest : string) :
  m = "docTriagers:" \/ m = "codeTriagers:" ->
  Spec.no_marker_in (String.length pre) (pre ++ m ++ seg ++ rest) = true ->
  Spec.no_marker_in (String.length seg) (seg ++ rest) = true ->
  rest = "" \/ Js.marker_at rest <> None ->
  nth_error (Js.split_markers (pre ++ m ++ seg ++ rest)) 1 = Some seg.
Proof.
  intros Hm Hpre Hseg Hrest. unfold Js.split_markers.
  assert (Hlen : exists f,
             String.length (pre ++ m ++ seg ++ rest) = S f).
  { rewrite !length_append.
    destruct Hm as [-> | ->]; simpl;
      rewrite Nat.add_succ_r; eexists; reflexivity. }
  destruct Hlen as [f ->].
  cbn [Js.split_markers_fuel].
  rewrite (search_marker_skip _ _ Hpre), (search_marker_here _ _ Hm).
  cbn [nth_error].
  assert (Hs : exists q, Js.split_markers_fuel f (seg ++ rest) = seg :: q).
  { destruct Hrest as [-> | Hr].
    - rewrite append_empty_r in *.
      assert (Hn : Js.search_marker seg = None).
      { generalize (search_marker_skip seg "" ). rewrite append_empty_r.
        intros Hn. now rewrite (Hn Hseg). }
      exists []. destruct f; simpl; now rewrite Hn.
    - destruct (search_marker_at _ Hr) as [q Hq].
      assert (Hn : Js.search_marker (seg ++ rest) = Some (seg, q)).
      { now rewrite (search_marker_skip _ _ Hseg), Hq, append_empty_r. }
      destruct f; simpl; rewrite Hn; eexists; reflexivity. }
  destruct Hs as [q ->]. reflexivity.
Qed.

(** C9, as the code has it.  When the comment part holds a triager marker,
    the annotation path reads only the text between the first marker and the
    next marker (or the end of the comment part when no other marker
    follows); when that text holds a token, exactly its whitespace-separated
    tokens are added, and when it is empty nothing is added. *)
Theorem customOwners_between_markers (pre m seg rest : string)
  (u : list string) :
  m = "docTriagers:" \/ m = "codeTriagers:" ->
  Spec.no_marker_in (String.length pre) (pre ++ m ++ seg ++ rest) = true ->
  Spec.no_marker_in (String.length seg) (seg ++ rest) = true ->
  rest = "" \/ Js.marker_at rest <> None ->
  seg = "" \/ Spec.blank seg = false ->
  customOwners (pre ++ m ++ seg ++ rest) u = Spec.add_all (Spec.words seg) u.
Proof.
  intros Hm Hpre Hseg Hrest Hblank. unfold customOwners.
  rewrite (split_markers_second _ _ _ _ Hm Hpre Hseg Hrest).
  destruct Hblank as [-> | Hb]; [reflexivity|].
  destruct seg as [|c t]; [discriminate|].
  rewrite splitByWhitespace_words.
  pose proof (words_not_blank _ Hb) as Hn.
  now destruct (Spec.words (String c t)).
Qed.

Lemma customOwners_between_markers_witness :
  customOwners (" " ++ "docTriagers:" ++ " alice " ++ "codeTriagers: bob") []
  = Spec.add_all (Spec.words " alice ") []
  /\ Spec.add_all (Spec.words " alice ") [] = ["alice"].
Proof.
  split; [|reflexivity].
  apply (customOwners_between_markers " " "docTriagers:" " alice "
           "codeTriagers: bob" []).
  - left; reflexivity.
  - reflexivity.
  - reflexivity.
  - right; discriminate.
  - right; reflexivity.
Defined.

(** C9 as stated fails: with both markers in one comment, the tokens that
    follow the second marker are part of "everything after" the first one,
    and are not accepted. *)
Lemma customOwners_not_whole_remainder :
  ~ (forall comment pre post u,
        Js.search_marker comment = Some (pre, post) ->
        customOwners comment u = Spec.add_all (Spec.words post) u).
Proof.
  intros H.
  specialize (H " docTriagers: alice codeTriagers: bob" " "
                " alice codeTriagers: bob" [] eq_refl).
  vm_compute in H. discriminate.
Qed.

(** A marker followed by whitespace only (before the next marker or the end
    of the comment part) adds the empty identifier. *)
Lemma customOwners_blank_segment :
  customOwners " docTriagers: " [] = [""].
Proof. reflexivity. Qed.

(** *** The fuel of [split_markers] is enough *)

Lemma startsWith_length (p s : string) :
  Js.startsWith p s = true -> String.length p <= String.length s.
Proof.
  revert s. induction p as [|a p IH]; intros s; [cbn; lia|].
  destruct s as [|b s]; cbn [Js.startsWith]; [discriminate|].
  intros H. apply andb_prop in H as [_ H]. apply IH in H. cbn. lia.
Qed.

Lemma slice_length (n : nat) (s : string) :
  String.length (Js.slice n s) = String.length s - n.
Proof.
  revert s. induction n as [|n IH]; intros s; cbn; [lia|].
  destruct s as [|c s]; [reflexivity|]. cbn. apply IH.
Qed.

Lemma marker_at_shorter (s : string) (n : nat) :
  Js.marker_at s = Some n ->
  String.length (Js.slice n s) < String.length s.
Proof.
  unfold Js.marker_at.
  destruct (Js.startsWith "docTriagers:" s) eqn:Hd.
  { intros [= <-]. apply startsWith_length in Hd.
    rewrite slice_length. cbn in Hd. lia. }
  destruct (Js.startsWith "codeTriagers:" s) eqn:Hc; [|discriminate].
  intros [= <-]. apply startsWith_length in Hc.
  rewrite slice_length. cbn in Hc. lia.
Qed.

Lemma search_marker_shorter (s : string) :
  forall pre post,
    Js.search_marker s = Some (pre, post) ->
    String.length post < String.length s.
Proof.
  induction s as [|c t IH]; intros pre post.
  - cbn. discriminate.
  - rewrite search_marker_unfold.
    destruct (Js.marker_at (String c t)) as [n|] eqn:Hm.
    { intros [= <- <-]. now apply marker_at_shorter. }
    destruct (Js.search_marker t) as [[p q]|] eqn:E; [|discriminate].
    intros [= <- <-]. specialize (IH _ _ eq_refl). cbn. lia.
Qed.

(** Any fuel from the length of the text on gives the same pieces: the
    branch that runs out of fuel is never taken. *)
Lemma split_markers_fuel_enough (fuel fuel' : nat) :
  forall s,
    String.length s <= fuel -> String.length s <= fuel' ->
    Js.split_markers_fuel fuel s = Js.split_markers_fuel fuel' s.
Proof.
  revert fuel'. induction fuel as [|f IH]; intros fuel' s H H'.
  - destruct s; [|cbn in H; lia]. now destruct fuel'.
  - destruct fuel' as [|f'].
    + destruct s; [reflexivity|cbn in H'; lia].
    + cbn [Js.split_markers_fuel].
      destruct (Js.search_marker s) as [[pre post]|] eqn:E; [|reflexivity].
      apply search_marker_shorter in E. f_equal. apply IH; lia.
Qed.

(** ** Owner extractor: one annotated line *)

Lemma occurs_append (c : ascii) (a b : string) :
  Spec.occurs c (a ++ b) <-> Spec.occurs c a \/ Spec.occurs c b.
Proof.
  unfold Spec.occurs. induction a as [|d t IH]; simpl; [tauto|].
  rewrite IH. tauto.
Qed.

Lemma split_no_separator (c : ascii) (s : string) :
  ~ Spec.occurs c s -> Js.split c s = [s].
Proof.
  unfold Spec.occurs. induction s as [|d t IH]; simpl; [reflexivity|].
  intros H. destruct (Ascii.eqb d c) eqn:E.
  - apply Ascii.eqb_eq in E. tauto.
  - rewrite IH; tauto.
Qed.

Lemma split_at_separator (c : ascii) (d rest : string) :
  ~ Spec.occurs c d ->
  Js.split c (d ++ String c rest) = d :: Js.split c rest.
Proof.
  unfold Spec.occurs. induction d as [|a t IH]; simpl.
  - intros _. now rewrite Ascii.eqb_refl.
  - intros H. destruct (Ascii.eqb a c) eqn:E.
    + apply Ascii.eqb_eq in E. tauto.
    + rewrite IH; tauto.
Qed.

(** C6, as the code has it.  A line whose comment is
    [# docTriagers: @bob @carol] and whose declaration part names no owner
    yields the two tokens as they are written, '@' included. *)
Theorem extract_docTriagers_verbatim (declaration : string) :
  ~ Spec.occurs "#" declaration ->
  ~ Spec.occurs nl declaration ->
  tl (Spec.words declaration) = [] ->
  extractGitHubUsernames (declaration ++ "# docTriagers: @bob @carol")
  = (["@bob"; "@carol"], []).
Proof.
  intros Hhash Hnl Hnone. unfold extractGitHubUsernames.
  destruct (String.eqb_spec (declaration ++ "# docTriagers: @bob @carol") "")
    as [E|_].
  { destruct declaration; discriminate. }
  rewrite split_no_separator.
  2:{ rewrite occurs_append. intros [H|H]; [tauto|].
      unfold Spec.occurs in H. simpl in H.
      repeat (destruct H as [H|H]; [discriminate|]). exact H. }
  cbn [fold_left]. unfold extract_line, nativeOwners.
  rewrite tl_splitByWhitespace, ownersLine_before.
  unfold comment_of.
  change (declaration ++ "# docTriagers: @bob @carol")%string
    with (declaration ++ String "#" " docTriagers: @bob @carol")%string.
  rewrite (split_at_separator _ _ _ Hhash).
  assert (Hb : Spec.before "#"
                 (declaration ++ String "#" " docTriagers: @bob @carol")
               = declaration).
  { clear Hnl Hnone. unfold Spec.occurs in Hhash.
    induction declaration as [|a t IH]; simpl; [reflexivity|].
    simpl in Hhash. destruct (Ascii.eqb a "#") eqn:E.
    - apply Ascii.eqb_eq in E. tauto.
    - rewrite IH; tauto. }
  rewrite Hb, Hnone. reflexivity.
Qed.

Lemma extract_docTriagers_verbatim_witness :
  extractGitHubUsernames ("/docs " ++ "# docTriagers: @bob @carol")
  = (["@bob"; "@carol"], []).
Proof.
  apply (extract_docTriagers_verbatim "/docs ").
  - unfold Spec.occurs. simpl. intuition discriminate.
  - unfold Spec.occurs. simpl. intuition discriminate.
  - reflexivity.
Defined.

(** C6 as stated fails: on the line [# docTriagers: @bob @carol] the result
    is not the set {bob, carol}. *)
Lemma extract_docTriagers_not_stripped :
  ~ (forall x,
        In x (fst (extractGitHubUsernames "# docTriagers: @bob @carol"))
        <-> In x ["bob"; "carol"]).
Proof.
  intros H. destruct (H "bob") as [_ H'].
  specialize (H' (or_introl eq_refl)). vm_compute in H'.
  destruct H' as [E|[E|[]]]; discriminate E.
Qed.

(** ** Plain objects: reading after writing *)

Lemma own_get_replace_same {A : Type} (o : props A) (k : string) (a : A) :
  Obj.has_own o k = true -> Obj.own_get (Obj.replace k a o) k = Some a.
Proof.
  unfold Obj.has_own. induction o as [|[k' a'] r IH]; simpl; [discriminate|].
  destruct (String.eqb k' k) eqn:E; simpl.
  - now rewrite String.eqb_refl.
  - now rewrite E.
Qed.

Lemma own_get_replace_other {A : Type} (o : props A) (k k' : string) (a : A) :
  k' <> k -> Obj.own_get (Obj.replace k a o) k' = Obj.own_get o k'.
Proof.
  intros Hk. induction o as [|[k0 a0] r IH]; simpl; [reflexivity|].
  destruct (String.eqb k0 k) eqn:E; simpl.
  - apply String.eqb_eq in E. subst k0.
    destruct (String.eqb k k') eqn:E'; [|reflexivity].
    apply String.eqb_eq in E'. congruence.
  - now rewrite IH.
Qed.

Lemma own_get_insert_index_same {A : Type} (o : props A) (n : N)
  (k : string) (a : A) :
  Obj.own_get o k = None ->
  Obj.own_get (Obj.insert_index n k a o) k = Some a.
Proof.
  induction o as [|[k0 a0] r IH]; simpl.
  - now rewrite String.eqb_refl.
  - destruct (String.eqb k0 k) eqn:E0; [discriminate|]. intros H.
    destruct (Obj.array_index k0) as [m|];
      [destruct (n <? m)%N|]; simpl;
      rewrite ?String.eqb_refl, ?E0; auto.
Qed.

Lemma own_get_insert_index_other {A : Type} (o : props A) (n : N)
  (k k' : string) (a : A) :
  k' <> k ->
  Obj.own_get (Obj.insert_index n k a o) k' = Obj.own_get o k'.
Proof.
  intros Hk. apply String.eqb_neq in Hk. rewrite String.eqb_sym in Hk.
  induction o as [|[k0 a0] r IH]; simpl.
  - now rewrite Hk.
  - destruct (Obj.array_index k0) as [m|];
      [destruct (n <? m)%N|]; simpl; rewrite ?Hk, ?IH; reflexivity.
Qed.

Lemma own_get_append {A : Type} (o o' : props A) (k : string) :
  Obj.own_get (o ++ o') k =
  match Obj.own_get o k with
  | Some a => Some a
  | None => Obj.own_get o' k
  end.
Proof.
  induction o as [|[k0 a0] r IH]; simpl; [reflexivity|].
  now destruct (String.eqb k0 k).
Qed.

Lemma own_get_set_same {A : Type} (o : props A) (k : string) (a : A) :
  Obj.own_get (Obj.set o k a) k = Some a.
Proof.
  unfold Obj.set. destruct (Obj.has_own o k) eqn:H.
  - now apply own_get_replace_same.
  - unfold Obj.has_own in H.
    destruct (Obj.own_get o k) eqn:G; [discriminate|].
    destruct (Obj.array_index k).
    + now apply own_get_insert_index_same.
    + rewrite own_get_append, G. simpl. now rewrite String.eqb_refl.
Qed.

Lemma own_get_set_other {A : Type} (o : props A) (k k' : string) (a : A) :
  k' <> k -> Obj.own_get (Obj.set o k a) k' = Obj.own_get o k'.
Proof.
  intros Hk. unfold Obj.set. destruct (Obj.has_own o k).
  - now apply own_get_replace_other.
  - destruct (Obj.array_index k).
    + now apply own_get_insert_index_other.
    + rewrite own_get_append. simpl.
      apply String.eqb_neq in Hk. rewrite String.eqb_sym in Hk. rewrite Hk.
      now destruct (Obj.own_get o k').
Qed.

Lemma own_get_without (ks : list string) (current : props obj) (k : string) :
  Obj.own_get (Spec.without ks current) k =
  if Js.array_includes k ks then None else Obj.own_get current k.
Proof.
  unfold Spec.without.
  induction current as [|[k0 e] r IH]; simpl.
  - now destruct (Js.array_includes k ks).
  - destruct (Js.array_includes k0 ks) eqn:E0; simpl.
    + rewrite IH. destruct (String.eqb k0 k) eqn:E; [|reflexivity].
      apply String.eqb_eq in E. subst. now rewrite E0.
    + rewrite IH. destruct (String.eqb k0 k) eqn:E; [|reflexivity].
      apply String.eqb_eq in E. subst. now rewrite E0.
Qed.

Lemma delete_without (ks : list string) (current : props obj) (k : string) :
  Obj.delete (Spec.without ks current) k = Spec.without (k :: ks) current.
Proof.
  unfold Obj.delete, Spec.without.
  induction current as [|[k0 e] r IH]; [reflexivity|].
  cbn [filter fst]. change (Js.array_includes k0 (k :: ks))
    with (String.eqb k0 k || Js.array_includes k0 ks).
  destruct (Js.array_includes k0 ks).
  - rewrite orb_true_r. exact IH.
  - rewrite orb_false_r. cbn [negb filter fst].
    destruct (String.eqb k0 k); cbn [negb]; now rewrite IH.
Qed.

Lemma delete_absent {A : Type} (o : props A) (k : string) :
  Obj.own_get o k = None -> Obj.delete o k = o.
Proof.
  unfold Obj.delete. induction o as [|[k0 a0] r IH]; simpl; [reflexivity|].
  destruct (String.eqb k0 k); [discriminate|]. simpl. intros H.
  now rewrite IH.
Qed.

Lemma without_absent (ks : list string) (current : props obj) (k : string) :
  Obj.own_get (Spec.without ks current) k = None ->
  Spec.without (k :: ks) current = Spec.without ks current.
Proof.
  intros H. rewrite <- delete_without. now apply delete_absent.
Qed.

Lemma without_nil (current : props obj) : Spec.without [] current = current.
Proof.
  unfold Spec.without. induction current as [|p r IH]; [reflexivity|].
  cbn [filter]. now rewrite IH.
Qed.

Lemma for_of_app {A B : Type} (body : A -> B -> run A) (l l' : list B)
  (a : A) :
  for_of body (l ++ l') a =
  match for_of body l a with
  | Done a' => for_of body l' a'
  | Thrown a' => Thrown a'
  end.
Proof.
  revert a. induction l as [|x r IH]; intros a; simpl; [reflexivity|].
  destruct (body a x); [apply IH|reflexivity].
Qed.

(** ** Roster reconciler *)

Lemma array_includes_In (x : string) (l : list string) :
  Js.array_includes x l = true <-> In x l.
Proof.
  unfold Js.array_includes. rewrite existsb_exists. split.
  - intros (y & Hy & E). apply String.eqb_eq in E. now subst.
  - intros H. exists x. split; [exact H|apply String.eqb_refl].
Qed.

Lemma without_ext (ks ks' : list string) (current : props obj) :
  (forall k, In k ks <-> In k ks') ->
  Spec.without ks current = Spec.without ks' current.
Proof.
  intros H. unfold Spec.without. apply filter_ext. intros p. f_equal.
  apply eq_true_iff_eq. rewrite !array_includes_In. apply H.
Qed.

Lemma without_delete (ks : list string) (o : props obj) (k : string) :
  Spec.without ks (Obj.delete o k) = Spec.without (k :: ks) o.
Proof.
  unfold Obj.delete, Spec.without.
  induction o as [|[k0 e] r IH]; [reflexivity|].
  cbn [filter fst]. change (Js.array_includes k0 (k :: ks))
    with (String.eqb k0 k || Js.array_includes k0 ks).
  destruct (String.eqb k0 k); cbn [negb orb filter fst]; now rewrite IH.
Qed.

Lemma has_github_inv (r : obj) :
  Spec.has_github r = true ->
  exists github,
    Obj.own_get r "github" = Some (VStr github)
    /\ Spec.record_key r = Js.toLowerCase github
    /\ Spec.record_github r = github.
Proof.
  unfold Spec.has_github, Spec.record_key, Spec.record_github.
  destruct (Obj.own_get r "github") as [[| | |g|]|]; try discriminate.
  intros _. now exists g.
Qed.

(** One iteration on a well-formed record never throws; it removes the key of
    the record from the map and can only append to the updated records. *)
Lemma refresh_entry_step (st : rstate) (r : obj) :
  Spec.has_github r = true ->
  exists st',
    refresh_entry st r = Done st'
    /\ remaining st' = Obj.delete (remaining st) (Spec.record_key r)
    /\ exists upd, updatedMaintainers st' = updatedMaintainers st ++ upd.
Proof.
  intros H. destruct (has_github_inv _ H) as (g & Hg & Hk & _).
  unfold refresh_entry, Obj.get. rewrite Hg, Hk.
  destruct (Obj.own_get (remaining st) (Js.toLowerCase g)) as [e|] eqn:E.
  - eexists. split; [reflexivity|]. split; [reflexivity|].
    eexists. reflexivity.
  - destruct (Obj.inherited (Js.toLowerCase g)).
    + eexists. split; [reflexivity|]. split; [reflexivity|].
      eexists. reflexivity.
    + eexists. split; [reflexivity|]. cbn [remaining updatedMaintainers].
      split; [now rewrite delete_absent|].
      exists []. now rewrite app_nil_r.
Qed.

Lemma refresh_loop_remaining (previous : list obj) :
  forall st,
    forallb Spec.has_github previous = true ->
    exists st',
      for_of refresh_entry previous st = Done st'
      /\ remaining st' =
         Spec.without (map Spec.record_key previous) (remaining st)
      /\ exists upd, updatedMaintainers st' = updatedMaintainers st ++ upd.
Proof.
  induction previous as [|r rest IH]; intros st H.
  - exists st. split; [reflexivity|]. split; [now rewrite without_nil|].
    exists []. now rewrite app_nil_r.
  - cbn [forallb] in H. apply andb_prop in H as [Hr Hrest].
    destruct (refresh_entry_step st r Hr) as (st1 & E1 & R1 & upd1 & U1).
    destruct (IH st1 Hrest) as (st' & E' & R' & upd' & U').
    exists st'. cbn [for_of]. rewrite E1. split; [exact E'|]. split.
    + rewrite R', R1. cbn [map]. apply without_delete.
    + exists (upd1 ++ upd'). now rewrite U', U1, app_assoc.
Qed.

(** C10.  The call consumes the caller's map: on return the map is the
    original one without the key of any previous record, so no entry matched
    by a previous record is left, and its values are exactly the newly
    discovered maintainers that end the returned roster. *)
Theorem refresh_consumes_current (previous : list obj)
  (current : props obj) :
  forallb Spec.has_github previous = true ->
  exists st upd,
    refreshPreviousMaintainers previous current = Done st
    /\ remaining st = Spec.without (map Spec.record_key previous) current
    /\ (forall r, In r previous ->
                  Obj.own_get (remaining st) (Spec.record_key r) = None)
    /\ (forall k, ~ In k (map Spec.record_key previous) ->
                  Obj.own_get (remaining st) k = Obj.own_get current k)
    /\ updatedMaintainers st = upd ++ Obj.values (remaining st).
Proof.
  intros H. unfold refreshPreviousMaintainers.
  destruct (refresh_loop_remaining previous (refresh_start current) H)
    as (st' & E & R & upd & U).
  rewrite E. cbn [remaining refresh_start] in R.
  eexists. exists upd. split; [reflexivity|].
  cbn [remaining updatedMaintainers]. rewrite R.
  split; [reflexivity|]. split; [|split].
  - intros r Hr. rewrite own_get_without.
    assert (Hin : Js.array_includes (Spec.record_key r)
                    (map Spec.record_key previous) = true).
    { apply array_includes_In. now apply in_map. }
    now rewrite Hin.
  - intros k Hk. rewrite own_get_without.
    destruct (Js.array_includes k (map Spec.record_key previous)) eqn:Hin;
      [|reflexivity].
    apply array_includes_In in Hin. contradiction.
  - rewrite U. reflexivity.
Qed.

Lemma refresh_consumes_current_witness :
  exists st upd,
    refreshPreviousMaintainers
      [[("github", VStr "Alice"); ("slack", VStr "#team-x")];
       [("github", VStr "dave")]]
      [("alice", [("github", VStr "alice"); ("githubID", VNum 7);
                  ("repos", VArr ["A"])]);
       ("carol", [("github", VStr "carol"); ("githubID", VNum 9);
                  ("repos", VArr ["B"])])]
    = Done st
    /\ remaining st =
       [("carol", [("github", VStr "carol"); ("githubID", VNum 9);
                   ("repos", VArr ["B"])])]
    /\ updatedMaintainers st = upd ++ Obj.values (remaining st).
Proof.
  destruct (refresh_consumes_current
              [[("github", VStr "Alice"); ("slack", VStr "#team-x")];
               [("github", VStr "dave")]]
              [("alice", [("github", VStr "alice"); ("githubID", VNum 7);
                          ("repos", VArr ["A"])]);
               ("carol", [("github", VStr "carol"); ("githubID", VNum 9);
                          ("repos", VArr ["B"])])]
              eq_refl)
    as (st & upd & E & R & _ & _ & U).
  exists st, upd. split; [exact E|]. split; [|exact U].
  rewrite R. reflexivity.
Defined.

Lemma refresh_loop_reconciles (previous : list obj) (current : props obj) :
  forall (earlier : list string) (st : rstate),
    forallb Spec.has_github previous = true ->
    forallb Spec.no_prototype_key previous = true ->
    remaining st = Spec.without earlier current ->
    for_of refresh_entry previous st =
    Done {| remaining :=
              Spec.without (rev (map Spec.record_key previous) ++ earlier)
                           current;
            updatedMaintainers :=
              updatedMaintainers st
                ++ Spec.updated_records earlier previous current;
            rtrace :=
              rtrace st ++ Spec.removal_notices earlier previous current |}.
Proof.
  induction previous as [|r rest IH]; intros earlier st Hg Hp Hrem.
  - cbn. rewrite !app_nil_r, <- Hrem. now destruct st.
  - cbn [forallb] in Hg, Hp.
    apply andb_prop in Hg as [Hr Hrest]. apply andb_prop in Hp as [Hpr Hprest].
    destruct (has_github_inv _ Hr) as (g & Eg & Ek & Egh).
    unfold Spec.no_prototype_key in Hpr. apply negb_true_iff in Hpr.
    cbn [for_of Spec.updated_records Spec.removal_notices map rev].
    unfold refresh_entry, Obj.get.
    rewrite Eg, Hrem, own_get_without, <- Ek, Hpr, Egh.
    rewrite <- app_assoc. cbn [app].
    destruct (Js.array_includes (Spec.record_key r) earlier) eqn:Hin.
    + rewrite (IH (Spec.record_key r :: earlier)); cbn [remaining].
      * cbn [updatedMaintainers rtrace]. rewrite <- app_assoc. cbn [app].
        now destruct (Obj.own_get current (Spec.record_key r)).
      * exact Hrest.
      * exact Hprest.
      * symmetry. apply without_absent.
        now rewrite own_get_without, Hin.
    + destruct (Obj.own_get current (Spec.record_key r)) as [e|] eqn:E.
      * rewrite (IH (Spec.record_key r :: earlier)); cbn [remaining].
        -- cbn [updatedMaintainers rtrace]. rewrite <- app_assoc. reflexivity.
        -- exact Hrest.
        -- exact Hprest.
        -- apply delete_without.
      * rewrite (IH (Spec.record_key r :: earlier)); cbn [remaining].
        -- cbn [updatedMaintainers rtrace]. rewrite <- app_assoc. reflexivity.
        -- exact Hrest.
        -- exact Hprest.
        -- symmetry. apply without_absent.
           now rewrite own_get_without, Hin.
Qed.

(** C3, as the code has it.  The returned roster is: every previous record
    whose key is a key of the current map and is not the key of an earlier
    previous record, updated, in the order of the previous roster; then the
    entries of the current map whose key is the key of no previous record, in
    the order of the map.  Every other previous record is left out and a
    removal notice is written for it.  (Records whose key is a property name
    of [Object.prototype] are not covered.) *)
Theorem refresh_reconciles (previous : list obj) (current : props obj) :
  forallb Spec.has_github previous = true ->
  forallb Spec.no_prototype_key previous = true ->
  refreshPreviousMaintainers previous current =
  Done {| remaining := Spec.without (map Spec.record_key previous) current;
          updatedMaintainers :=
            Spec.updated_records [] previous current
              ++ Spec.fresh_records previous current;
          rtrace :=
            StartGroup "Refreshing previous maintainers list"
              :: Spec.removal_notices [] previous current ++ [EndGroup] |}.
Proof.
  intros Hg Hp. unfold refreshPreviousMaintainers.
  rewrite (refresh_loop_reconciles previous current [] _ Hg Hp).
  2:{ cbn. now rewrite without_nil. }
  cbn [remaining updatedMaintainers rtrace refresh_start app].
  unfold Spec.fresh_records.
  rewrite (without_ext (rev (map Spec.record_key previous) ++ [])
                       (map Spec.record_key previous)).
  - reflexivity.
  - intros k. rewrite app_nil_r. symmetry. apply in_rev.
Qed.

Lemma refresh_reconciles_witness :
  refreshPreviousMaintainers
    [[("github", VStr "Alice"); ("slack", VStr "#a")];
     [("github", VStr "dave")];
     [("github", VStr "alice"); ("slack", VStr "#b")]]
    [("carol", [("github", VStr "carol"); ("githubID", VNum 9);
                ("repos", VArr ["B"])]);
     ("alice", [("github", VStr "alice"); ("githubID", VNum 7);
                ("repos", VArr ["A"])])]
  = Done {| remaining :=
              [("carol", [("github", VStr "carol"); ("githubID", VNum 9);
                          ("repos", VArr ["B"])])];
            updatedMaintainers :=
              [[("github", VStr "Alice"); ("slack", VStr "#a");
                ("repos", VArr ["A"]); ("githubID", VNum 7)];
               [("github", VStr "carol"); ("githubID", VNum 9);
                ("repos", VArr ["B"])]];
            rtrace :=
              [StartGroup "Refreshing previous maintainers list";
               Info (not_found_removing "dave");
               Info (not_found_removing "alice");
               EndGroup] |}.
Proof.
  rewrite (refresh_reconciles
             [[("github", VStr "Alice"); ("slack", VStr "#a")];
              [("github", VStr "dave")];
              [("github", VStr "alice"); ("slack", VStr "#b")]]
             [("carol", [("github", VStr "carol"); ("githubID", VNum 9);
                         ("repos", VArr ["B"])]);
              ("alice", [("github", VStr "alice"); ("githubID", VNum 7);
                         ("repos", VArr ["A"])])]
             eq_refl eq_refl).
  reflexivity.
Defined.

(** C3 as stated fails: of two previous records with the same key only the
    first is kept, the second finds its key consumed. *)
Lemma refresh_not_claimed_roster :
  ~ (forall previous current st,
        refreshPreviousMaintainers previous current = Done st ->
        updatedMaintainers st = Spec.claimed_roster previous current).
Proof.
  intros H.
  specialize (H [[("github", VStr "alice"); ("slack", VStr "#a")];
                 [("github", VStr "Alice"); ("slack", VStr "#b")]]
                [("alice", [("github", VStr "alice"); ("githubID", VNum 7);
                            ("repos", VArr ["A"])])]
                _ eq_refl).
  vm_compute in H. discriminate.
Qed.

(** A previous record named after a property of [Object.prototype] is kept
    although the current map has no such key; its [repos] and [githubID]
    become [undefined] and no removal is reported. *)
Lemma refresh_keeps_prototype_key :
  refreshPreviousMaintainers
    [[("github", VStr "constructor"); ("repos", VArr ["A"])]] []
  = Done {| remaining := [];
            updatedMaintainers :=
              [[("github", VStr "constructor"); ("repos", VUndefined);
                ("githubID", VUndefined)]];
            rtrace := [StartGroup "Refreshing previous maintainers list";
                       EndGroup] |}.
Proof. reflexivity. Qed.

(** C4.  A previous record matched by an entry of the current map appears in
    the returned roster as a copy in which [repos] and [githubID] hold the
    values of the current entry and every other field holds what the previous
    record held. *)
Theorem refresh_preserves_fields (before after : list obj) (r : obj)
  (current : props obj) (github : string) (entry : obj) :
  forallb Spec.has_github (before ++ r :: after) = true ->
  Obj.own_get r "github" = Some (VStr github) ->
  Obj.own_get current (Js.toLowerCase github) = Some entry ->
  ~ In (Js.toLowerCase github) (map Spec.record_key before) ->
  exists st front back r',
    refreshPreviousMaintainers (before ++ r :: after) current = Done st
    /\ updatedMaintainers st = front ++ r' :: back
    /\ r' = Obj.set (Obj.set r "repos" (Obj.field entry "repos"))
                    "githubID" (Obj.field entry "githubID")
    /\ Obj.field r' "repos" = Obj.field entry "repos"
    /\ Obj.field r' "githubID" = Obj.field entry "githubID"
    /\ (forall f, f <> "repos" -> f <> "githubID" ->
                  Obj.own_get r' f = Obj.own_get r f).
Proof.
  intros Hg Er Ee Hfirst.
  rewrite forallb_app in Hg. apply andb_prop in Hg as [Hb Hra].
  cbn [forallb] in Hra. apply andb_prop in Hra as [_ Ha].
  unfold refreshPreviousMaintainers. rewrite for_of_app.
  destruct (refresh_loop_remaining before (refresh_start current) Hb)
    as (st1 & E1 & R1 & upd1 & U1).
  rewrite E1. cbn [for_of]. cbn [remaining refresh_start] in R1.
  unfold refresh_entry at 1. unfold Obj.get.
  rewrite Er, R1, own_get_without.
  destruct (Js.array_includes (Js.toLowerCase github)
              (map Spec.record_key before)) eqn:Hin.
  { apply array_includes_In in Hin. contradiction. }
  rewrite Ee.
  match goal with
  | |- context [for_of refresh_entry after ?s] =>
      destruct (refresh_loop_remaining after s Ha)
        as (st2 & E2 & _ & upd2 & U2); rewrite E2
  end.
  cbn [updatedMaintainers] in U2.
  eexists. exists (updatedMaintainers st1).
  exists (upd2 ++ Obj.values (remaining st2)).
  eexists. split; [reflexivity|]. cbn [updatedMaintainers].
  split; [|split; [reflexivity|]].
  - rewrite U2, <- !app_assoc. reflexivity.
  - unfold updated_entry, Obj.field. repeat split.
    + rewrite own_get_set_other by discriminate.
      now rewrite own_get_set_same.
    + now rewrite own_get_set_same.
    + intros f H1 H2. now rewrite !own_get_set_other.
Qed.

Lemma refresh_preserves_fields_witness :
  exists st front back r',
    refreshPreviousMaintainers
      ([[("github", VStr "zed")]]
         ++ [("github", VStr "eve"); ("slack", VStr "#team-x");
             ("repos", VArr ["R0"])] :: [])
      [("eve", [("github", VStr "eve"); ("githubID", VNum 5);
                ("repos", VArr ["R1"])])]
    = Done st
    /\ updatedMaintainers st = front ++ r' :: back
    /\ r' = [("github", VStr "eve"); ("slack", VStr "#team-x");
             ("repos", VArr ["R1"]); ("githubID", VNum 5)].
Proof.
  destruct (refresh_preserves_fields
              [[("github", VStr "zed")]] []
              [("github", VStr "eve"); ("slack", VStr "#team-x");
               ("repos", VArr ["R0"])]
              [("eve", [("github", VStr "eve"); ("githubID", VNum 5);
                        ("repos", VArr ["R1"])])]
              "eve"
              [("github", VStr "eve"); ("githubID", VNum 5);
               ("repos", VArr ["R1"])]
              eq_refl eq_refl eq_refl)
    as (st & front & back & r' & E & U & Er' & _).
  - simpl. intros [H|[]]. discriminate H.
  - exists st, front, back, r'. split; [exact E|]. split; [exact U|].
    rewrite Er'. reflexivity.
Defined.

(** ** The extractor only warns, and returns a set *)

Lemma only_warnings_keys (evs : list event) :
  (forall e, In e evs -> exists m, e = Warning m) ->
  Spec.lookup_keys evs = [] /\ Spec.profile_keys evs = [].
Proof.
  induction evs as [|e evs IH]; intros H; [now split|].
  destruct (H e (or_introl eq_refl)) as [m ->].
  destruct IH as [IH1 IH2]; [intros e He; apply H; now right|].
  now split.
Qed.

Lemma extract_line_warnings (st : list string * list event) (line : string) :
  (forall e, In e (snd st) -> exists m, e = Warning m) ->
  forall e, In e (snd (extract_line st line)) -> exists m, e = Warning m.
Proof.
  intros H e. unfold extract_line, nativeOwners.
  rewrite native_loop. cbn [snd]. rewrite in_app_iff, in_map_iff.
  intros [He|(t & <- & _)]; [now apply H|now eexists].
Qed.

Lemma extract_warnings (c : string) :
  forall e, In e (snd (extractGitHubUsernames c)) -> exists m, e = Warning m.
Proof.
  unfold extractGitHubUsernames. destruct (String.eqb c ""); [intros e []|].
  generalize (Js.split nl c). intros lines.
  assert (H : forall e, In e (snd (@nil string, @nil event)) ->
                        exists m, e = Warning m) by (intros e []).
  revert H. generalize (@nil string, @nil event).
  induction lines as [|line lines IH]; intros st H; [exact H|].
  cbn [fold_left]. apply IH. now apply extract_line_warnings.
Qed.

Lemma set_add_NoDup (x : string) (s : list string) :
  NoDup s -> NoDup (Js.set_add x s).
Proof.
  intros H. unfold Js.set_add.
  destruct (existsb (String.eqb x) s) eqn:E; [exact H|].
  apply NoDup_app; [exact H|repeat constructor; intros []|].
  intros y Hy [->|[]].
  assert (Js.array_includes y s = true) by now apply array_includes_In.
  unfold Js.array_includes in *. congruence.
Qed.

Lemma add_all_NoDup (l u : list string) :
  NoDup u -> NoDup (Spec.add_all l u).
Proof.
  unfold Spec.add_all. revert u.
  induction l as [|x l IH]; intros u H; [exact H|].
  cbn [fold_left]. apply IH. now apply set_add_NoDup.
Qed.

Lemma extract_line_NoDup (st : list string * list event) (line : string) :
  NoDup (fst st) -> NoDup (fst (extract_line st line)).
Proof.
  intros H. unfold extract_line, nativeOwners. rewrite native_loop.
  cbn [fst]. apply add_all_NoDup. unfold customOwners.
  destruct (nth_error (Js.split_markers (comment_of line)) 1) as [[|c t]|];
    try exact H.
  now apply (add_all_NoDup (splitByWhitespace (String c t))).
Qed.

(** The owners of a document are pairwise different strings. *)
Lemma extract_NoDup (c : string) : NoDup (fst (extractGitHubUsernames c)).
Proof.
  unfold extractGitHubUsernames. destruct (String.eqb c ""); [constructor|].
  generalize (Js.split nl c). intros lines.
  assert (H : NoDup (fst (@nil string, @nil event))) by constructor.
  revert H. generalize (@nil string, @nil event).
  induction lines as [|line lines IH]; intros st H; [exact H|].
  cbn [fold_left]. apply IH. now apply extract_line_NoDup.
Qed.

(** ** Traces *)

Lemma lookup_keys_app (a b : list event) :
  Spec.lookup_keys (a ++ b) = Spec.lookup_keys a ++ Spec.lookup_keys b.
Proof. apply flat_map_app. Qed.

Lemma profile_keys_app (a b : list event) :
  Spec.profile_keys (a ++ b) = Spec.profile_keys a ++ Spec.profile_keys b.
Proof. apply flat_map_app. Qed.

Lemma no_lookup_after_profile_nil : Spec.no_lookup_after_profile [].
Proof. intros [|x b] o p a H; discriminate H. Qed.

Lemma no_lookup_after_profile_snoc (tr : list event) (e : event) :
  Spec.no_lookup_after_profile tr ->
  (forall k, In k (Spec.lookup_keys [e]) -> ~ In k (Spec.profile_keys tr)) ->
  Spec.no_lookup_after_profile (tr ++ [e]).
Proof.
  intros Htr He before o p after E.
  destruct after as [|x after0]; [intros []|].
  destruct (@exists_last _ (x :: after0)) as (after' & e' & Eq);
    [discriminate|].
  rewrite Eq in *. clear Eq x after0.
  change (before ++ GetGitHubProfile o (Some p) :: after' ++ [e'])
    with (before ++ (GetGitHubProfile o (Some p) :: after') ++ [e']) in E.
  rewrite app_assoc in E. apply app_inj_tail in E as [-> ->].
  rewrite lookup_keys_app, in_app_iff. intros [H|H].
  - exact (Htr _ _ _ _ eq_refl H).
  - apply (He _ H). rewrite profile_keys_app, in_app_iff. right.
    simpl. now left.
Qed.

Lemma no_lookup_after_profile_app (tr evs : list event) :
  Spec.no_lookup_after_profile tr ->
  Spec.lookup_keys evs = [] ->
  Spec.no_lookup_after_profile (tr ++ evs).
Proof.
  revert tr. induction evs as [|e evs IH]; intros tr Htr Hnone.
  - now rewrite app_nil_r.
  - change (e :: evs) with ([e] ++ evs) in *. rewrite app_assoc.
    rewrite lookup_keys_app in Hnone. apply app_eq_nil in Hnone as [H1 H2].
    apply IH; [|exact H2]. apply no_lookup_after_profile_snoc; [exact Htr|].
    rewrite H1. intros k [].
Qed.

(** ** Lower case *)

Lemma lower_unit_idempotent (c : ascii) :
  Js.lower_unit (Js.lower_unit c) = Js.lower_unit c.
Proof. destruct c as [[] [] [] [] [] [] [] []]; reflexivity. Qed.

Lemma toLowerCase_idempotent (s : string) :
  Js.toLowerCase (Js.toLowerCase s) = Js.toLowerCase s.
Proof.
  induction s as [|c t IH]; [reflexivity|]. cbn.
  now rewrite lower_unit_idempotent, IH.
Qed.

(** ** Maintainer collector *)

Section CollectorFacts.

Variable World : Type.
Variable getGitHubProfile : World -> string -> option obj * World.
Variable ignoredUsers : list string.

Local Abbreviation step := (collect_owner World getGitHubProfile ignoredUsers).
Local Abbreviation file_step := (collect_file World getGitHubProfile ignoredUsers).
Local Abbreviation collect :=
  (collectCurrentMaintainers World getGitHubProfile ignoredUsers).
Local Abbreviation state := (cstate World).

(** The five ways through the body of the loop over the owners. *)
Lemma collect_owner_cases (r : string) (st : state) (owner : string) :
  let cm := currentMaintainers st in
  let key := Js.toLowerCase owner in
  (Js.array_includes owner ignoredUsers = true
   /\ step r st owner =
      Done {| currentMaintainers := cm; world := world st;
              trace := trace st ++ [Debug (on_ignore_list r owner)] |})
  \/ (Js.array_includes owner ignoredUsers = false
      /\ Obj.own_get cm key = None /\ Obj.inherited key = false
      /\ exists w,
          getGitHubProfile (world st) owner = (None, w)
          /\ step r st owner =
             Done {| currentMaintainers := cm; world := w;
                     trace := (trace st ++ [GetGitHubProfile owner None])
                                ++ [Warning (profile_not_found r owner)] |})
  \/ (Js.array_includes owner ignoredUsers = false
      /\ Obj.own_get cm key = None /\ Obj.inherited key = false
      /\ exists p w,
          getGitHubProfile (world st) owner = (Some p, w)
          /\ step r st owner =
             Done {| currentMaintainers :=
                       Obj.set (Obj.set cm key (Obj.set p "repos" (VArr [])))
                               key
                               (Obj.set (Obj.set p "repos" (VArr []))
                                        "repos" (VArr [r]));
                     world := w;
                     trace := trace st ++ [GetGitHubProfile owner (Some p)]
                  |})
  \/ (Js.array_includes owner ignoredUsers = false
      /\ exists entry l,
          Obj.own_get cm key = Some entry
          /\ Obj.own_get entry "repos" = Some (VArr l)
          /\ step r st owner =
             Done {| currentMaintainers :=
                       Obj.set cm key
                               (Obj.set entry "repos" (VArr (l ++ [r])));
                     world := world st; trace := trace st |})
  \/ (Js.array_includes owner ignoredUsers = false
      /\ step r st owner = Thrown st
      /\ ((Obj.own_get cm key = None /\ Obj.inherited key = true)
          \/ exists entry,
              Obj.own_get cm key = Some entry
              /\ forall l, Obj.own_get entry "repos" <> Some (VArr l))).
Proof.
  intros cm key. unfold collect_owner. fold cm. fold key.
  destruct (Js.array_includes owner ignoredUsers) eqn:Hi; [now left|].
  right. unfold Obj.get.
  destruct (Obj.own_get cm key) as [entry|] eqn:Hown.
  - right. right. unfold pushed, push_repo, Obj.get. rewrite Hown.
    destruct (Obj.own_get entry "repos") as [[| | | |l]|] eqn:Hrepos;
      try (right; split; [reflexivity|]; split;
           [now destruct st|
            right; exists entry; split; [reflexivity|];
            intros l; rewrite Hrepos; discriminate]).
    left. split; [reflexivity|]. now exists entry, l.
  - destruct (Obj.inherited key) eqn:Hinh.
    + right. right. right. split; [reflexivity|].
      unfold pushed, push_repo, Obj.get. rewrite Hown, Hinh.
      split; [now destruct st|]. left. now split.
    + destruct (getGitHubProfile (world st) owner) as [[p|] w] eqn:Hp.
      * right. left. repeat split; trivial. exists p, w. split; [reflexivity|].
        unfold pushed, push_repo, Obj.get.
        rewrite own_get_set_same, own_get_set_same. reflexivity.
      * left. repeat split; trivial. now exists w.
Qed.

Lemma for_of_invariant {A B : Type} (P : A -> Prop) (body : A -> B -> run A)
  (l : list B) :
  (forall a x, In x l -> P a -> P (state_of (body a x))) ->
  forall a, P a -> P (state_of (for_of body l a)).
Proof.
  induction l as [|x l IH]; intros Hbody a Ha; [exact Ha|].
  cbn [for_of]. pose proof (Hbody a x (or_introl eq_refl) Ha) as Hx.
  destruct (body a x) as [a'|a']; cbn [state_of] in *; [|exact Hx].
  apply IH; [|exact Hx]. intros a0 y Hy. apply Hbody. now right.
Qed.

Lemma own_get_set_keeps {A : Type} (o : props A) (k k' : string) (a : A) :
  Obj.own_get o k' <> None -> Obj.own_get (Obj.set o k a) k' <> None.
Proof.
  intros H. destruct (String.eqb_spec k' k) as [->|Hk].
  - now rewrite own_get_set_same.
  - now rewrite own_get_set_other.
Qed.

Ltac owner_cases r st owner :=
  let H := fresh "H" in
  pose proof (collect_owner_cases r st owner) as H; cbv zeta in H;
  destruct H as
    [(Hi & E)
    |[(Hi & Hown & Hinh & w & Hp & E)
     |[(Hi & Hown & Hinh & p & w & Hp & E)
      |[(Hi & entry & l & Hown & Hrepos & E)
       |(Hi & E & Hwhy)]]]];
  rewrite E; cbn [state_of currentMaintainers world trace].

Local Abbreviation lookups_settled st :=
  (Spec.no_lookup_after_profile (trace st)
   /\ Spec.profiles_recorded (currentMaintainers st) (trace st)).

Lemma collect_owner_settled (r : string) (st : state) (owner : string) :
  lookups_settled st -> lookups_settled (state_of (step r st owner)).
Proof.
  unfold Spec.profiles_recorded. intros [Hs Hr].
  assert (Hnew : Obj.own_get (currentMaintainers st) (Js.toLowerCase owner)
                 = None ->
                 forall res k,
                   In k (Spec.lookup_keys [GetGitHubProfile owner res]) ->
                   ~ In k (Spec.profile_keys (trace st))).
  { intros Hown res k [<-|[]] Hin. exact (Hr _ Hin Hown). }
  owner_cases r st owner.
  - split.
    + now apply no_lookup_after_profile_app.
    + rewrite profile_keys_app. cbn. now rewrite app_nil_r.
  - split.
    + apply no_lookup_after_profile_app; [|reflexivity].
      apply no_lookup_after_profile_snoc; [exact Hs|now apply Hnew].
    + rewrite !profile_keys_app. cbn. now rewrite !app_nil_r.
  - split.
    + apply no_lookup_after_profile_snoc; [exact Hs|now apply Hnew].
    + intros k. rewrite profile_keys_app, in_app_iff.
      intros [Hk|[<-|[]]].
      * now apply own_get_set_keeps, own_get_set_keeps, Hr.
      * now rewrite own_get_set_same.
  - split; [exact Hs|]. intros k Hk. now apply own_get_set_keeps, Hr.
  - now split.
Qed.

Lemma collect_file_settled (st : state) (f : codeowners) :
  lookups_settled st -> lookups_settled (state_of (file_step st f)).
Proof.
  intros [Hs Hr]. unfold collect_file.
  pose proof (extract_warnings (content f)) as Hw.
  destruct (extractGitHubUsernames (content f)) as [owners warnings].
  cbn [snd] in Hw. destruct (only_warnings_keys _ Hw) as [Hl Hp].
  apply for_of_invariant.
  - intros a x _. apply collect_owner_settled.
  - split; cbn [trace currentMaintainers].
    + now apply no_lookup_after_profile_app.
    + unfold Spec.profiles_recorded.
      now rewrite profile_keys_app, Hp, app_nil_r.
Qed.

Lemma collect_settled (files : list codeowners) (w : World) :
  lookups_settled (state_of (collect files w)).
Proof.
  unfold collectCurrentMaintainers.
  assert (H : lookups_settled
                (state_of (for_of file_step files
                             (collect_start World w)))).
  { apply for_of_invariant.
    - intros a x _. apply collect_file_settled.
    - split.
      + apply (no_lookup_after_profile_app []);
          [apply no_lookup_after_profile_nil|reflexivity].
      + intros k []. }
  destruct (for_of file_step files (collect_start World w)) as [st|st];
    cbn [state_of] in *; [|exact H].
  destruct H as [Hs Hr]. split; cbn [trace currentMaintainers].
  - now apply no_lookup_after_profile_app.
  - unfold Spec.profiles_recorded in *.
    rewrite profile_keys_app. cbn. now rewrite app_nil_r.
Qed.

(** C1, as the code has it.  In one collection pass, once a profile lookup
    has returned a profile, no later lookup is made for the same lower-cased
    username, whatever its spelling. *)
Theorem lookup_settled_by_profile (files : list codeowners) (w : World)
  (before after : list event) (login : string) (profile : obj) :
  trace (state_of (collect files w))
    = before ++ GetGitHubProfile login (Some profile) :: after ->
  ~ In (Js.toLowerCase login) (Spec.lookup_keys after).
Proof.
  intros H. destruct (collect_settled files w) as [Hs _].
  exact (Hs _ _ _ _ H).
Qed.

(** *** Ignored users *)

Local Abbreviation untouched k st :=
  (Spec.untouched_key k (currentMaintainers st) (trace st)).

Lemma collect_owner_untouched (r : string) (st : state) (owner k : string) :
  (Js.toLowerCase owner = k -> Js.array_includes owner ignoredUsers = true) ->
  untouched k st -> untouched k (state_of (step r st owner)).
Proof.
  unfold Spec.untouched_key. intros Hk [Hc Ht].
  assert (Hne : Js.array_includes owner ignoredUsers = false ->
                k <> Js.toLowerCase owner).
  { intros Hi E. rewrite (Hk (eq_sym E)) in Hi. discriminate. }
  owner_cases r st owner; rewrite ?lookup_keys_app, ?in_app_iff; cbn.
  - tauto.
  - specialize (Hne Hi). intuition congruence.
  - specialize (Hne Hi). rewrite !own_get_set_other by exact Hne.
    intuition congruence.
  - specialize (Hne Hi). rewrite own_get_set_other by exact Hne. tauto.
  - tauto.
Qed.

Lemma collect_file_untouched (st : state) (f : codeowners) (k : string) :
  (forall o, In o (fst (extractGitHubUsernames (content f))) ->
             Js.toLowerCase o = k ->
             Js.array_includes o ignoredUsers = true) ->
  untouched k st -> untouched k (state_of (file_step st f)).
Proof.
  intros Hk [Hc Ht]. unfold collect_file.
  pose proof (extract_warnings (content f)) as Hw.
  destruct (extractGitHubUsernames (content f)) as [owners warnings].
  cbn [fst snd] in *. destruct (only_warnings_keys _ Hw) as [Hl _].
  apply (for_of_invariant (fun st => untouched k st)).
  - intros a o Ho. apply collect_owner_untouched. now apply Hk.
  - unfold Spec.untouched_key. cbn [currentMaintainers trace].
    split; [exact Hc|]. now rewrite lookup_keys_app, Hl, app_nil_r.
Qed.

(** C7, as the code has it.  A username of which every spelling found in the
    documents is, letter for letter, an element of [ignoredUsers] never gets
    an entry in the current-maintainer map and never causes a profile lookup,
    in however many documents it is declared. *)
Theorem ignored_spellings_skipped (files : list codeowners) (w : World)
  (k : string) :
  (forall f o,
      In f files ->
      In o (fst (extractGitHubUsernames (content f))) ->
      Js.toLowerCase o = k ->
      Js.array_includes o ignoredUsers = true) ->
  Obj.own_get (currentMaintainers (state_of (collect files w))) k = None
  /\ ~ In k (Spec.lookup_keys (trace (state_of (collect files w)))).
Proof.
  intros Hk. unfold collectCurrentMaintainers.
  assert (H : untouched k (state_of (for_of file_step files
                                       (collect_start World w)))).
  { apply (for_of_invariant (fun st => untouched k st)).
    - intros a f Hf. apply collect_file_untouched. intros o. now apply Hk.
    - split; [reflexivity|]. cbn. tauto. }
  unfold Spec.untouched_key in H.
  destruct (for_of file_step files (collect_start World w)) as [st|st];
    cbn [state_of currentMaintainers trace] in *; [|exact H].
  destruct H as [Hc Ht]. split; [exact Hc|].
  rewrite lookup_keys_app, in_app_iff. cbn. tauto.
Qed.

(** *** One document *)

Lemma repos_of_set_other (cm : props obj) (key k : string) (e : obj) :
  k <> key -> Spec.repos_of (Obj.set cm key e) k = Spec.repos_of cm k.
Proof. intros H. unfold Spec.repos_of. now rewrite own_get_set_other. Qed.

Lemma repos_of_set_same (cm : props obj) (key : string) (e : obj)
  (l : list string) :
  Spec.repos_of (Obj.set cm key (Obj.set e "repos" (VArr l))) key = l.
Proof.
  unfold Spec.repos_of. now rewrite own_get_set_same, own_get_set_same.
Qed.

Lemma collect_owner_repos (r : string) (st : state) (owner k : string) :
  exists n,
    Spec.repos_of (currentMaintainers (state_of (step r st owner))) k
    = Spec.repos_of (currentMaintainers st) k ++ repeat r n
    /\ n <= List.length (Spec.spellings k [owner]).
Proof.
  assert (Hz : exists n,
             Spec.repos_of (currentMaintainers st) k
             = Spec.repos_of (currentMaintainers st) k ++ repeat r n
             /\ n <= List.length (Spec.spellings k [owner])).
  { exists 0. cbn. rewrite app_nil_r. split; [reflexivity|lia]. }
  owner_cases r st owner; try exact Hz.
  - destruct (String.eqb_spec (Js.toLowerCase owner) k) as [<-|Hk].
    + exists 1. rewrite repos_of_set_same. unfold Spec.repos_of at 1.
      rewrite Hown. cbn. rewrite String.eqb_refl. split; [reflexivity|cbn; lia].
    + rewrite !repos_of_set_other by congruence. exact Hz.
  - destruct (String.eqb_spec (Js.toLowerCase owner) k) as [<-|Hk].
    + exists 1. rewrite repos_of_set_same. unfold Spec.repos_of at 1.
      rewrite Hown, Hrepos. cbn. rewrite String.eqb_refl.
      split; [reflexivity|cbn; lia].
    + rewrite repos_of_set_other by congruence. exact Hz.
Qed.

Lemma collect_owners_repos (r : string) (owners : list string) (k : string) :
  forall st : state,
  exists n,
    Spec.repos_of
      (currentMaintainers (state_of (for_of (step r) owners st))) k
    = Spec.repos_of (currentMaintainers st) k ++ repeat r n
    /\ n <= List.length (Spec.spellings k owners).
Proof.
  induction owners as [|o owners IH]; intros st.
  - exists 0. cbn. rewrite app_nil_r. split; [reflexivity|lia].
  - cbn [for_of]. destruct (collect_owner_repos r st o k) as (n1 & E1 & L1).
    assert (Hlen : List.length (Spec.spellings k (o :: owners))
                   = List.length (Spec.spellings k [o])
                     + List.length (Spec.spellings k owners)).
    { unfold Spec.spellings. cbn [filter].
      destruct (String.eqb (Js.toLowerCase o) k); reflexivity. }
    destruct (step r st o) as [st1|st1]; cbn [state_of] in *.
    + destruct (IH st1) as (n2 & E2 & L2). exists (n1 + n2).
      rewrite E2, E1, <- app_assoc, repeat_app. split; [reflexivity|lia].
    + exists n1. split; [exact E1|lia].
Qed.

(** What the collector does keep: while one document is processed, its
    repository name is appended to the [repos] list of an entry at most once
    for each owner string extracted from the document that lower-cases to the
    key, and these strings are pairwise different. *)
Lemma repo_appended_once_per_spelling (st : state) (f : codeowners)
  (k : string) :
  NoDup (fst (extractGitHubUsernames (content f)))
  /\ exists n,
      Spec.repos_of (currentMaintainers (state_of (file_step st f))) k
      = Spec.repos_of (currentMaintainers st) k ++ repeat (repo f) n
      /\ n <= List.length
                (Spec.spellings k (fst (extractGitHubUsernames (content f)))).
Proof.
  split; [apply extract_NoDup|]. unfold collect_file.
  destruct (extractGitHubUsernames (content f)) as [owners warnings].
  cbn [fst].
  exact (collect_owners_repos (repo f) owners k
           {| currentMaintainers := currentMaintainers st;
              world := world st; trace := trace st ++ warnings |}).
Qed.

(** *** Merging spellings *)

Lemma own_get_None_keys {A : Type} (o : props A) (k : string) :
  Obj.own_get o k = None <-> ~ In k (Obj.keys o).
Proof.
  unfold Obj.keys. induction o as [|[k0 a0] r IH]; cbn; [tauto|].
  destruct (String.eqb_spec k0 k) as [->|Hk].
  - split; [discriminate|tauto].
  - rewrite IH. tauto.
Qed.

Lemma keys_replace {A : Type} (o : props A) (k : string) (a : A) :
  Obj.keys (Obj.replace k a o) = Obj.keys o.
Proof.
  unfold Obj.keys. induction o as [|[k0 a0] r IH]; cbn; [reflexivity|].
  destruct (String.eqb_spec k0 k) as [->|Hk]; cbn; congruence.
Qed.

Lemma keys_insert_index {A : Type} (o : props A) (n : N) (k : string)
  (a : A) (x : string) :
  In x (Obj.keys (Obj.insert_index n k a o)) <-> x = k \/ In x (Obj.keys o).
Proof.
  unfold Obj.keys. induction o as [|[k0 a0] r IH]; cbn.
  - intuition congruence.
  - destruct (Obj.array_index k0) as [m|];
      [destruct (n <? m)%N|]; cbn; rewrite ?IH; intuition congruence.
Qed.

Lemma NoDup_insert_index {A : Type} (o : props A) (n : N) (k : string)
  (a : A) :
  ~ In k (Obj.keys o) -> NoDup (Obj.keys o) ->
  NoDup (Obj.keys (Obj.insert_index n k a o)).
Proof.
  induction o as [|[k0 a0] r IH]; intros Hk Hnd.
  - cbn. constructor; [tauto|constructor].
  - cbn [Obj.insert_index].
    destruct (Obj.array_index k0) as [m|];
      [destruct (n <? m)%N|]; try (cbn; now constructor).
    unfold Obj.keys in *. cbn [map fst] in *.
    apply NoDup_cons_iff in Hnd as [H0 Hr].
    constructor.
    + fold (Obj.keys (Obj.insert_index n k a r)).
      rewrite keys_insert_index. unfold Obj.keys. cbn in Hk.
      intuition congruence.
    + apply IH; [|exact Hr]. cbn in Hk. tauto.
Qed.

Lemma NoDup_keys_set {A : Type} (o : props A) (k : string) (a : A) :
  NoDup (Obj.keys o) -> NoDup (Obj.keys (Obj.set o k a)).
Proof.
  intros H. unfold Obj.set, Obj.has_own.
  destruct (Obj.own_get o k) eqn:E; [now rewrite keys_replace|].
  apply own_get_None_keys in E.
  destruct (Obj.array_index k).
  - now apply NoDup_insert_index.
  - unfold Obj.keys in *. rewrite map_app. cbn.
    apply NoDup_app; [exact H|repeat constructor; intros []|].
    intros x Hx [->|[]]. contradiction.
Qed.

Lemma own_get_In_keys {A : Type} (o : props A) (k : string) (a : A) :
  Obj.own_get o k = Some a -> In k (Obj.keys o).
Proof.
  intros H. destruct (in_dec string_dec k (Obj.keys o)) as [Hin|Hno];
    [exact Hin|].
  apply own_get_None_keys in Hno. congruence.
Qed.

Lemma one_key_for_spellings {A : Type} (o : props A) (k : string) :
  Js.toLowerCase k = k ->
  NoDup (Obj.keys o) ->
  (forall k', In k' (Obj.keys o) -> Js.toLowerCase k' = k -> k' = k) ->
  In k (Obj.keys o) ->
  List.length
    (filter (fun p => String.eqb (Js.toLowerCase (fst p)) k) o) = 1.
Proof.
  intros Hk. unfold Obj.keys.
  induction o as [|[k0 a0] r IH]; intros Hnd Hone Hin.
  - destruct Hin.
  - cbn [map fst] in *. apply NoDup_cons_iff in Hnd as [Hk0 Hr].
    cbn [filter fst].
    destruct (String.eqb_spec (Js.toLowerCase k0) k) as [Hlow|Hlow].
    + pose proof (Hone k0 (or_introl eq_refl) Hlow) as ->.
      cbn [List.length]. f_equal.
      assert (Hnone : forall l : props A,
                 (forall k', In k' (map fst l) ->
                             Js.toLowerCase k' = k -> k' = k) ->
                 ~ In k (map fst l) ->
                 filter (fun p => String.eqb (Js.toLowerCase (fst p)) k) l
                 = []).
      { clear. induction l as [|[k1 a1] l IHl]; intros H1 H2; [reflexivity|].
        cbn [filter fst map] in *.
        destruct (String.eqb_spec (Js.toLowerCase k1) k) as [E|_].
        - exfalso. apply H2. left. now apply H1; [left|].
        - apply IHl.
          + intros k' Hk'. apply H1. now right.
          + intros Hx. apply H2. now right. }
      rewrite Hnone; [reflexivity| |exact Hk0].
      intros k' Hk'. apply Hone. now right.
    + apply IH; [exact Hr| |].
      * intros k' Hk'. apply Hone. now right.
      * destruct Hin as [->|Hin]; [|exact Hin].
        contradiction.
Qed.

Lemma array_repos_set (cm : props obj) (key : string) (e : obj)
  (l : list string) :
  Spec.array_repos cm ->
  Spec.array_repos (Obj.set cm key (Obj.set e "repos" (VArr l))).
Proof.
  intros H k entry. destruct (String.eqb_spec k key) as [->|Hk].
  - rewrite own_get_set_same. intros [= <-]. exists l.
    apply own_get_set_same.
  - rewrite own_get_set_other by exact Hk. apply H.
Qed.

Local Abbreviation good st :=
  (Spec.array_repos (currentMaintainers st)
   /\ NoDup (Obj.keys (currentMaintainers st))).

Lemma collect_owner_good (r : string) (st : state) (owner : string) :
  good st -> good (state_of (step r st owner)).
Proof.
  intros [Ha Hn]. owner_cases r st owner; try (now split).
  - split.
    + now apply array_repos_set, array_repos_set.
    + now apply NoDup_keys_set, NoDup_keys_set.
  - split.
    + now apply array_repos_set.
    + now apply NoDup_keys_set.
Qed.

Lemma collect_owner_returns (r : string) (st : state) (owner : string) :
  good st ->
  (Js.array_includes owner ignoredUsers = false ->
   Obj.inherited (Js.toLowerCase owner) = false) ->
  exists st', step r st owner = Done st'.
Proof.
  intros [Ha Hn] Hproto. owner_cases r st owner; try (eexists; reflexivity).
  exfalso. destruct Hwhy as [[_ Hinh]|(entry & Hown & Hrepos)].
  - rewrite (Hproto Hi) in Hinh. discriminate.
  - destruct (Ha _ _ Hown) as [l Hl]. exact (Hrepos l Hl).
Qed.

Lemma collect_owner_adds (r : string) (st : state) (owner : string) :
  good st ->
  Js.array_includes owner ignoredUsers = false ->
  Obj.inherited (Js.toLowerCase owner) = false ->
  (forall w, fst (getGitHubProfile w owner) <> None) ->
  exists st',
    step r st owner = Done st'
    /\ Spec.repos_of (currentMaintainers st') (Js.toLowerCase owner)
       = Spec.repos_of (currentMaintainers st) (Js.toLowerCase owner) ++ [r].
Proof.
  intros [Ha Hn] Hign Hproto Hfound.
  owner_cases r st owner; try congruence.
  - exfalso. apply (Hfound (world st)). now rewrite Hp.
  - eexists. split; [reflexivity|]. cbn [currentMaintainers].
    rewrite repos_of_set_same. unfold Spec.repos_of. now rewrite Hown.
  - eexists. split; [reflexivity|]. cbn [currentMaintainers].
    rewrite repos_of_set_same. unfold Spec.repos_of.
    now rewrite Hown, Hrepos.
  - exfalso. destruct Hwhy as [[_ Hinh]|(entry & Hown & Hrepos)].
    + congruence.
    + destruct (Ha _ _ Hown) as [l Hl]. exact (Hrepos l Hl).
Qed.

Lemma for_of_returns {A B : Type} (P : A -> Prop) (body : A -> B -> run A)
  (l : list B) :
  (forall a x, In x l -> P a -> exists a', body a x = Done a' /\ P a') ->
  forall a, P a -> exists a', for_of body l a = Done a' /\ P a'.
Proof.
  induction l as [|x l IH]; intros Hbody a Ha; [now exists a|].
  cbn [for_of]. destruct (Hbody a x (or_introl eq_refl) Ha) as (a1 & -> & H1).
  apply IH; [|exact H1]. intros a0 y Hy. apply Hbody. now right.
Qed.

Lemma collect_owners_returns (r : string) (owners : list string) :
  (forall o, In o owners ->
             Js.array_includes o ignoredUsers = false ->
             Obj.inherited (Js.toLowerCase o) = false) ->
  forall st : state,
    good st -> exists st', for_of (step r) owners st = Done st' /\ good st'.
Proof.
  intros Hproto. apply (for_of_returns (fun st => good st)).
  intros a o Ho Ha.
  destruct (collect_owner_returns r a o Ha (Hproto o Ho)) as [a' E].
  exists a'. split; [exact E|].
  pose proof (collect_owner_good r a o Ha) as Hg. now rewrite E in Hg.
Qed.

Lemma collect_file_repos (st : state) (f : codeowners) (k : string) :
  exists n,
    Spec.repos_of (currentMaintainers (state_of (file_step st f))) k
    = Spec.repos_of (currentMaintainers st) k ++ repeat (repo f) n
    /\ n <= List.length
              (Spec.spellings k (fst (extractGitHubUsernames (content f)))).
Proof.
  unfold collect_file.
  destruct (extractGitHubUsernames (content f)) as [owners warnings].
  cbn [fst].
  exact (collect_owners_repos (repo f) owners k
           {| currentMaintainers := currentMaintainers st;
              world := world st; trace := trace st ++ warnings |}).
Qed.

Lemma collect_files_repos (files : list codeowners) (k : string) :
  forall st : state,
  exists s,
    Spec.repos_of
      (currentMaintainers (state_of (for_of file_step files st))) k
    = Spec.repos_of (currentMaintainers st) k ++ s.
Proof.
  induction files as [|f files IH]; intros st.
  - exists []. cbn. now rewrite app_nil_r.
  - cbn [for_of]. destruct (collect_file_repos st f k) as (n & E & _).
    destruct (file_step st f) as [st1|st1]; cbn [state_of] in *.
    + destruct (IH st1) as (s & Es). exists (repeat (repo f) n ++ s).
      now rewrite Es, E, app_assoc.
    + now exists (repeat (repo f) n).
Qed.

Local Abbreviation no_prototype_owner f :=
  (forall o, In o (fst (extractGitHubUsernames (content f))) ->
             Js.array_includes o ignoredUsers = false ->
             Obj.inherited (Js.toLowerCase o) = false).

Lemma collect_file_returns (st : state) (f : codeowners) :
  no_prototype_owner f ->
  good st -> exists st', file_step st f = Done st' /\ good st'.
Proof.
  intros Hproto Hg. unfold collect_file.
  destruct (extractGitHubUsernames (content f)) as [owners warnings].
  cbn [fst] in Hproto. now apply collect_owners_returns.
Qed.

Lemma collect_files_returns (files : list codeowners) :
  (forall f, In f files -> no_prototype_owner f) ->
  forall st : state,
    good st -> exists st', for_of file_step files st = Done st' /\ good st'.
Proof.
  intros Hproto. apply (for_of_returns (fun st => good st)).
  intros a f Hf Ha. apply collect_file_returns; [now apply Hproto|exact Ha].
Qed.

Lemma collect_file_adds (st : state) (f : codeowners) (o : string) :
  no_prototype_owner f ->
  good st ->
  In o (fst (extractGitHubUsernames (content f))) ->
  Js.array_includes o ignoredUsers = false ->
  (forall w, fst (getGitHubProfile w o) <> None) ->
  exists st' s1 s2,
    file_step st f = Done st' /\ good st'
    /\ Spec.repos_of (currentMaintainers st') (Js.toLowerCase o)
       = Spec.repos_of (currentMaintainers st) (Js.toLowerCase o)
           ++ s1 ++ repo f :: s2.
Proof.
  intros Hproto Hg Ho Hign Hfound. unfold collect_file.
  destruct (extractGitHubUsernames (content f)) as [owners warnings].
  cbn [fst] in *. apply in_split in Ho as (os1 & os2 & ->).
  rewrite for_of_app.
  match goal with
  | |- context [for_of (step (repo f)) os1 ?s] =>
      destruct (collect_owners_returns (repo f) os1
                  (fun x Hx => Hproto x (in_or_app _ _ _ (or_introl Hx)))
                  s Hg) as (st1 & E1 & G1);
      destruct (collect_owners_repos (repo f) os1 (Js.toLowerCase o) s)
        as (n1 & R1 & _)
  end.
  rewrite E1 in *. cbn [state_of currentMaintainers] in R1.
  cbn [for_of].
  destruct (collect_owner_adds (repo f) st1 o G1 Hign
              (Hproto o (in_elt _ _ _) Hign)
              Hfound) as (st2 & E2 & R2).
  rewrite E2.
  pose proof (collect_owner_good (repo f) st1 o G1) as G2.
  rewrite E2 in G2. cbn [state_of] in G2.
  destruct (collect_owners_returns (repo f) os2
              (fun x Hx =>
                 Hproto x (in_or_app _ _ _ (or_intror (in_cons _ _ _ Hx))))
              st2 G2) as (st3 & E3 & G3).
  destruct (collect_owners_repos (repo f) os2 (Js.toLowerCase o) st2)
    as (n3 & R3 & _).
  rewrite E3 in *. cbn [state_of] in R3.
  exists st3, (repeat (repo f) n1), (repeat (repo f) n3).
  split; [reflexivity|]. split; [exact G3|].
  rewrite R3, R2, R1, <- !app_assoc. reflexivity.
Qed.

Lemma spellings_merge_entry
  (files1 files2 files3 : list codeowners) (fA fB : codeowners)
  (oA oB k : string) (w : World) :
  In oA (fst (extractGitHubUsernames (content fA))) ->
  In oB (fst (extractGitHubUsernames (content fB))) ->
  Js.toLowerCase oA = k -> Js.toLowerCase oB = k ->
  Js.array_includes oA ignoredUsers = false ->
  Js.array_includes oB ignoredUsers = false ->
  (forall w' o, Js.toLowerCase o = k ->
                fst (getGitHubProfile w' o) <> None) ->
  (forall f, In f (files1 ++ fA :: files2 ++ fB :: files3) ->
             no_prototype_owner f) ->
  exists st entry l1 l2 l3,
    collect (files1 ++ fA :: files2 ++ fB :: files3) w = Done st
    /\ NoDup (Obj.keys (currentMaintainers st))
    /\ Obj.own_get (currentMaintainers st) k = Some entry
    /\ Obj.own_get entry "repos"
       = Some (VArr (l1 ++ repo fA :: l2 ++ repo fB :: l3)).
Proof.
  intros HoA HoB HkA HkB HiA HiB Hfound Hproto.
  unfold collectCurrentMaintainers.
  assert (G0 : good (collect_start World w)).
  { split; [intros k0 e; discriminate|constructor]. }
  rewrite for_of_app.
  destruct (collect_files_returns files1
              (fun f Hf => Hproto f (in_or_app _ _ _ (or_introl Hf)))
              _ G0) as (st1 & E1 & G1).
  rewrite E1. cbn [for_of].
  destruct (collect_file_adds st1 fA oA
              (Hproto fA (in_elt _ _ _))
              G1 HoA HiA (fun w' => Hfound w' oA HkA))
    as (st2 & a1 & a2 & E2 & G2 & R2).
  rewrite E2, for_of_app.
  assert (Hp2 : forall f, In f files2 -> no_prototype_owner f).
  { intros f Hf. apply Hproto. apply in_or_app. right. right.
    apply in_or_app. now left. }
  destruct (collect_files_returns files2 Hp2 st2 G2) as (st3 & E3 & G3).
  destruct (collect_files_repos files2 k st2) as (s2 & R3).
  rewrite E3 in *. cbn [for_of state_of] in *.
  assert (HpB : no_prototype_owner fB).
  { apply Hproto. apply in_or_app. right. right.
    apply in_or_app. right. now left. }
  destruct (collect_file_adds st3 fB oB HpB G3 HoB HiB
              (fun w' => Hfound w' oB HkB))
    as (st4 & b1 & b2 & E4 & G4 & R4).
  rewrite E4.
  assert (Hp3 : forall f, In f files3 -> no_prototype_owner f).
  { intros f Hf. apply Hproto. apply in_or_app. right. right.
    apply in_or_app. right. now right. }
  destruct (collect_files_returns files3 Hp3 st4 G4) as (st5 & E5 & G5).
  destruct (collect_files_repos files3 k st4) as (s3 & R5).
  rewrite E5 in *. cbn [state_of] in R5.
  rewrite HkA in R2. rewrite HkB in R4.
  assert (R : Spec.repos_of (currentMaintainers st5) k
              = (Spec.repos_of (currentMaintainers st1) k ++ a1)
                  ++ repo fA :: (a2 ++ s2 ++ b1) ++ repo fB :: (b2 ++ s3)).
  { rewrite R5, R4, R3, R2.
    repeat (rewrite <- app_assoc; cbn [app]). reflexivity. }
  destruct G5 as [Ha5 Hn5].
  unfold Spec.repos_of in R at 1.
  destruct (Obj.own_get (currentMaintainers st5) k) as [entry|] eqn:Hown.
  2:{ destruct (Spec.repos_of (currentMaintainers st1) k ++ a1);
        discriminate R. }
  destruct (Ha5 _ _ Hown) as [l Hl]. rewrite Hl in R. subst l.
  eexists. exists entry. do 3 eexists.
  split; [reflexivity|]. cbn [currentMaintainers].
  split; [exact Hn5|]. split; [exact Hown|exact Hl].
Qed.

(** *** One key for all spellings *)

Local Abbreviation lower_keys st :=
  (forall k', Obj.own_get (currentMaintainers st) k' <> None ->
              Js.toLowerCase k' = k').

Lemma collect_owner_lower_keys (r : string) (st : state) (owner : string) :
  lower_keys st -> lower_keys (state_of (step r st owner)).
Proof.
  intros Hl.
  assert (Hset : forall (cm : props obj) e',
             (forall k', Obj.own_get cm k' <> None ->
                         Js.toLowerCase k' = k') ->
             forall k',
               Obj.own_get (Obj.set cm (Js.toLowerCase owner) e') k' <> None ->
               Js.toLowerCase k' = k').
  { intros cm e' Hcm k'.
    destruct (String.eqb_spec k' (Js.toLowerCase owner)) as [->|Hk].
    - intros _. apply toLowerCase_idempotent.
    - rewrite own_get_set_other by exact Hk. apply Hcm. }
  owner_cases r st owner; try exact Hl.
  - now apply Hset, Hset.
  - now apply Hset.
Qed.

Lemma collect_lower_keys (files : list codeowners) (w : World) :
  lower_keys (state_of (collect files w)).
Proof.
  unfold collectCurrentMaintainers.
  assert (H : lower_keys (state_of (for_of file_step files
                                      (collect_start World w)))).
  { apply (for_of_invariant (fun st => lower_keys st)).
    - intros a f _ Ha. unfold collect_file.
      destruct (extractGitHubUsernames (content f)) as [owners warnings].
      apply (for_of_invariant (fun st => lower_keys st)).
      + intros a' o _. apply collect_owner_lower_keys.
      + exact Ha.
    - intros k' H. now contradiction H. }
  now destruct (for_of file_step files (collect_start World w)).
Qed.

(** C2.  A username that is not ignored and has a profile, declared in one
    letter case in a document and in another letter case in a later document,
    gets exactly one entry: the map has an entry under the lower-cased
    username, no key of the map occurs twice, and no other key of the map is
    a spelling of the username.  The [repos] list of that entry holds the
    repository of the first document before the repository of the second.
    (No owner is named after a property of [Object.prototype].) *)
Theorem spellings_merge_into_one_entry
  (files1 files2 files3 : list codeowners) (fA fB : codeowners)
  (oA oB k : string) (w : World) :
  In oA (fst (extractGitHubUsernames (content fA))) ->
  In oB (fst (extractGitHubUsernames (content fB))) ->
  Js.toLowerCase oA = k -> Js.toLowerCase oB = k ->
  Js.array_includes oA ignoredUsers = false ->
  Js.array_includes oB ignoredUsers = false ->
  (forall w' o, Js.toLowerCase o = k ->
                fst (getGitHubProfile w' o) <> None) ->
  (forall f, In f (files1 ++ fA :: files2 ++ fB :: files3) ->
             no_prototype_owner f) ->
  exists st entry l1 l2 l3,
    collect (files1 ++ fA :: files2 ++ fB :: files3) w = Done st
    /\ NoDup (Obj.keys (currentMaintainers st))
    /\ (forall k', In k' (Obj.keys (currentMaintainers st)) ->
                   Js.toLowerCase k' = k -> k' = k)
    /\ List.length
         (filter (fun p => String.eqb (Js.toLowerCase (fst p)) k)
                 (currentMaintainers st)) = 1
    /\ Obj.own_get (currentMaintainers st) k = Some entry
    /\ Obj.own_get entry "repos"
       = Some (VArr (l1 ++ repo fA :: l2 ++ repo fB :: l3)).
Proof.
  intros HoA HoB HkA HkB HiA HiB Hfound Hproto.
  destruct (spellings_merge_entry files1 files2 files3 fA fB oA oB k w
              HoA HoB HkA HkB HiA HiB Hfound Hproto)
    as (st & entry & l1 & l2 & l3 & E & Hnd & Hown & Hrepos).
  pose proof (collect_lower_keys (files1 ++ fA :: files2 ++ fB :: files3) w)
    as Hlow.
  rewrite E in Hlow. cbn [state_of] in Hlow.
  assert (Hone : forall k', In k' (Obj.keys (currentMaintainers st)) ->
                            Js.toLowerCase k' = k -> k' = k).
  { intros k' Hin Hk'. rewrite <- Hk'. symmetry. apply Hlow.
    intros Hnone. now apply own_get_None_keys in Hnone. }
  exists st, entry, l1, l2, l3.
  split; [exact E|]. split; [exact Hnd|]. split; [exact Hone|].
  split; [|split; [exact Hown|exact Hrepos]].
  apply (one_key_for_spellings (currentMaintainers st) k);
    [|exact Hnd|exact Hone|now apply (own_get_In_keys _ _ entry)].
  apply Hlow. now rewrite Hown.
Qed.

End CollectorFacts.

(** ** The collector on concrete passes *)

Lemma lookup_settled_by_profile_witness :
  ~ In (Js.toLowerCase "Alice")
       (Spec.lookup_keys
          [GetGitHubProfile "bob"
             (Some [("github", VStr "bob"); ("githubID", VNum 1)]);
           EndGroup]).
Proof.
  apply (lookup_settled_by_profile nat Sample.found []
           [Sample.doc "A" "* @Alice @bob"; Sample.doc "B" "* @alice"] 0
           [StartGroup
              "Fetching  GitHub profile information for each codeowner"]
           [GetGitHubProfile "bob"
              (Some [("github", VStr "bob"); ("githubID", VNum 1)]);
            EndGroup]
           "Alice" [("github", VStr "Alice"); ("githubID", VNum 0)]).
  reflexivity.
Defined.

(** C1 as stated fails: a username whose lookup returned no profile is
    looked up again when a later document declares it. *)
Lemma lookup_repeated_after_no_profile :
  ~ (forall (World : Type)
            (getGitHubProfile : World -> string -> option obj * World)
            (ignoredUsers : list string) (files : list codeowners)
            (w : World),
        NoDup (Spec.lookup_keys
                 (trace (state_of (collectCurrentMaintainers
                                     World getGitHubProfile ignoredUsers
                                     files w))))).
Proof.
  intros H.
  specialize (H nat Sample.missing []
                [Sample.doc "A" "* @ghost"; Sample.doc "B" "* @ghost"] 0).
  vm_compute in H. apply NoDup_cons_iff in H as [H _]. apply H. now left.
Qed.

Lemma spellings_merge_into_one_entry_witness :
  exists st entry l1 l2 l3,
    collectCurrentMaintainers nat Sample.found []
      ([] ++ Sample.doc "A" "* @Alice"
          :: [] ++ Sample.doc "B" "* @alice" :: []) 0
    = Done st
    /\ NoDup (Obj.keys (currentMaintainers st))
    /\ (forall k', In k' (Obj.keys (currentMaintainers st)) ->
                   Js.toLowerCase k' = "alice" -> k' = "alice")
    /\ List.length
         (filter (fun p => String.eqb (Js.toLowerCase (fst p)) "alice")
                 (currentMaintainers st)) = 1
    /\ Obj.own_get (currentMaintainers st) "alice" = Some entry
    /\ Obj.own_get entry "repos" = Some (VArr (l1 ++ "A" :: l2 ++ "B" :: l3)).
Proof.
  apply (spellings_merge_into_one_entry nat Sample.found []
           [] [] [] (Sample.doc "A" "* @Alice") (Sample.doc "B" "* @alice")
           "Alice" "alice" "alice" 0).
  - now left.
  - now left.
  - reflexivity.
  - reflexivity.
  - reflexivity.
  - reflexivity.
  - intros w' o _. discriminate.
  - intros f [<-|[<-|[]]] o [<-|[]] _; reflexivity.
Defined.

(** The pass of the witness, evaluated. *)
Lemma spellings_merge_example :
  currentMaintainers
    (state_of (collectCurrentMaintainers nat Sample.found []
                 [Sample.doc "A" "* @Alice"; Sample.doc "B" "* @alice"] 0))
  = [("alice", [("github", VStr "Alice"); ("githubID", VNum 0);
                ("repos", VArr ["A"; "B"])])].
Proof. reflexivity. Qed.

(** C2 as stated fails: a declared username without a profile gets no entry,
    in whatever letter cases it is declared. *)
Lemma spellings_without_profile_no_entry :
  ~ (forall (World : Type)
            (getGitHubProfile : World -> string -> option obj * World)
            (ignoredUsers : list string) (fA fB : codeowners)
            (oA oB k : string) (w : World),
        In oA (fst (extractGitHubUsernames (content fA))) ->
        In oB (fst (extractGitHubUsernames (content fB))) ->
        Js.toLowerCase oA = k -> Js.toLowerCase oB = k ->
        exists entry l1 l2 l3,
          Obj.own_get
            (currentMaintainers
               (state_of (collectCurrentMaintainers
                            World getGitHubProfile ignoredUsers
                            [fA; fB] w))) k = Some entry
          /\ Obj.own_get entry "repos"
             = Some (VArr (l1 ++ repo fA :: l2 ++ repo fB :: l3))).
Proof.
  intros H.
  destruct (H nat Sample.missing []
              (Sample.doc "A" "* @Ghost") (Sample.doc "B" "* @ghost")
              "Ghost" "ghost" "ghost" 0
              (or_introl eq_refl) (or_introl eq_refl) eq_refl eq_refl)
    as (entry & l1 & l2 & l3 & E & _).
  vm_compute in E. discriminate E.
Qed.

(** A spelling on the ignore list leaves its repository out of the entry that
    another spelling creates. *)
Lemma ignored_spelling_not_merged :
  currentMaintainers
    (state_of (collectCurrentMaintainers nat Sample.found ["Alice"]
                 [Sample.doc "A" "* @Alice"; Sample.doc "B" "* @alice"] 0))
  = [("alice", [("github", VStr "alice"); ("githubID", VNum 0);
                ("repos", VArr ["B"])])].
Proof. reflexivity. Qed.

(** An owner named after a property of [Object.prototype] ends the pass with
    a [TypeError], before any lookup for it. *)
Lemma prototype_owner_throws :
  collectCurrentMaintainers nat Sample.found []
    [Sample.doc "A" "* @Constructor"; Sample.doc "B" "* @constructor"] 0
  = Thrown {| currentMaintainers := []; world := 0;
              trace :=
                [StartGroup
                   "Fetching  GitHub profile information for each codeowner"]
           |}.
Proof. reflexivity. Qed.

Lemma ignored_spellings_skipped_witness :
  Obj.own_get
    (currentMaintainers
       (state_of (collectCurrentMaintainers nat Sample.found ["bot"; "Bot"]
                    [Sample.doc "A" "* @bot @alice";
                     Sample.doc "B" "* @Bot"] 0)))
    "bot" = None
  /\ ~ In "bot"
        (Spec.lookup_keys
           (trace
              (state_of (collectCurrentMaintainers nat Sample.found
                           ["bot"; "Bot"]
                           [Sample.doc "A" "* @bot @alice";
                            Sample.doc "B" "* @Bot"] 0)))).
Proof.
  apply (ignored_spellings_skipped nat Sample.found ["bot"; "Bot"]
           [Sample.doc "A" "* @bot @alice"; Sample.doc "B" "* @Bot"] 0 "bot").
  intros f o [<-|[<-|[]]].
  - intros [<-|[<-|[]]]; [reflexivity|discriminate].
  - intros [<-|[]] _. reflexivity.
Defined.

(** C7 as stated fails: the ignore list is compared with the spelling found
    in the document, so [@Alice] passes an ignore list that holds [alice]. *)
Lemma ignored_in_other_case_collected :
  ~ (forall (World : Type)
            (getGitHubProfile : World -> string -> option obj * World)
            (ignoredUsers : list string) (files : list codeowners)
            (w : World) (o : string),
        In (Js.toLowerCase o) ignoredUsers ->
        Obj.own_get
          (currentMaintainers
             (state_of (collectCurrentMaintainers
                          World getGitHubProfile ignoredUsers files w)))
          (Js.toLowerCase o) = None
        /\ ~ In (Js.toLowerCase o)
              (Spec.lookup_keys
                 (trace
                    (state_of (collectCurrentMaintainers
                                 World getGitHubProfile ignoredUsers
                                 files w))))).
Proof.
  intros H.
  destruct (H nat Sample.found ["alice"] [Sample.doc "A" "* @Alice"] 0
              "Alice" (or_introl eq_refl)) as [E _].
  vm_compute in E. discriminate E.
Qed.

(** C8 as stated fails: two spellings of one username in one document append
    the repository twice. *)
Lemma repo_appended_twice :
  ~ (forall (World : Type)
            (getGitHubProfile : World -> string -> option obj * World)
            (ignoredUsers : list string) (st : cstate World)
            (f : codeowners) (k : string),
        exists n,
          n <= 1
          /\ Spec.repos_of
               (currentMaintainers
                  (state_of (collect_file World getGitHubProfile
                               ignoredUsers st f))) k
             = Spec.repos_of (currentMaintainers st) k ++ repeat (repo f) n).
Proof.
  intros H.
  destruct (H nat Sample.found [] (collect_start nat 0)
              (Sample.doc "R" "* @Alice @alice") "alice")
    as (n & Hn & E).
  vm_compute in E.
  destruct n as [|[|n]]; [discriminate E|discriminate E|lia].
Qed.

(** C8, on the code.  One document that declares a username twice in the same
    letter case names its repository once in the entry, as the set of
    extracted owners is meant to ensure; the same document with the two
    declarations in different letter cases names the repository twice, since
    the set holds both spellings and both are filed under one key. *)
Theorem repo_pushed_twice_for_two_spellings :
  currentMaintainers
    (state_of (collectCurrentMaintainers nat Sample.found []
                 [Sample.doc "R" "* @Alice @Alice"] 0))
  = [("alice", [("github", VStr "Alice"); ("githubID", VNum 0);
                ("repos", VArr ["R"])])]
  /\ collectCurrentMaintainers nat Sample.found []
       [Sample.doc "R" "* @Alice @alice"] 0
     = Done {| currentMaintainers :=
                 [("alice", [("github", VStr "Alice"); ("githubID", VNum 0);
                             ("repos", VArr ["R"; "R"])])];
               world := 1;
               trace :=
                 [StartGroup
                    "Fetching  GitHub profile information for each codeowner";
                  GetGitHubProfile "Alice"
                    (Some [("github", VStr "Alice"); ("githubID", VNum 0)]);
                  EndGroup] |}.
Proof. split; reflexivity. Qed.

(** ** More on the helpers and the extractor *)

Lemma words_tokens (s : string) :
  forall t, In t (Spec.words s) ->
            t <> "" /\ (forall c, Spec.occurs c t -> Js.is_ws c = false).
Proof.
  assert (Hone : forall c, Js.is_ws c = false ->
                   String c "" <> ""
                   /\ (forall d, Spec.occurs d (String c "") ->
                                 Js.is_ws d = false)).
  { intros c Hc. split; [discriminate|]. intros d [<-|[]]. exact Hc. }
  induction s as [|c s IH]; intros t; cbn [Spec.words]; [intros []|].
  destruct (Js.is_ws c) eqn:Hc; [apply IH|].
  destruct s as [|d s']; [intros [<-|[]]; now apply Hone|].
  destruct (Js.is_ws d) eqn:Hd.
  - intros [<-|H]; [now apply Hone|now apply IH].
  - destruct (Spec.words (String d s')) as [|h r] eqn:E.
    + intros [<-|[]]. now apply Hone.
    + intros [<-|H].
      * split; [discriminate|]. intros x [<-|Hx]; [exact Hc|].
        destruct (IH h (or_introl eq_refl)) as [_ Hh]. now apply Hh.
      * apply IH. now right.
Qed.

Lemma concat_words (s : string) :
  String.concat "" (Spec.words s) = Vocab.strip_ws s.
Proof.
  induction s as [|c s IH]; [reflexivity|].
  cbn [Spec.words Vocab.strip_ws].
  destruct (Js.is_ws c) eqn:Hc; [exact IH|].
  destruct s as [|d s']; [reflexivity|].
  destruct (Js.is_ws d) eqn:Hd.
  - rewrite <- IH. cbn [String.concat].
    destruct (Spec.words (String d s')); reflexivity.
  - rewrite <- IH.
    destruct (Spec.words (String d s')) as [|h r]; [reflexivity|].
    cbn [String.concat]. destruct r; reflexivity.
Qed.

(** [splitByWhitespace] loses nothing but whitespace: on a text that holds
    only whitespace (or nothing) it returns the single empty string; on any
    other text every piece is non-empty and free of whitespace; and in both
    cases the pieces put together are the text without its whitespace. *)
Theorem splitByWhitespace_tokens (line : string) :
  (if Spec.blank line
   then splitByWhitespace line = [""]
   else forall t, In t (splitByWhitespace line) ->
                  t <> "" /\ (forall c, Spec.occurs c t -> Js.is_ws c = false))
  /\ String.concat "" (splitByWhitespace line) = Vocab.strip_ws line.
Proof.
  rewrite splitByWhitespace_words. split.
  - destruct (Spec.blank line) eqn:Hb.
    + now rewrite (words_blank _ Hb).
    + pose proof (words_not_blank _ Hb) as Hn. intros t Ht.
      apply (words_tokens line).
      now destruct (Spec.words line).
  - rewrite <- concat_words. now destruct (Spec.words line).
Qed.

(** *** [trim] *)

Lemma trimEnd_idempotent (s : string) :
  Js.trimEnd (Js.trimEnd s) = Js.trimEnd s.
Proof.
  induction s as [|c t IH]; [reflexivity|]. cbn [Js.trimEnd].
  destruct (Js.trimEnd t) as [|d r] eqn:E.
  - destruct (Js.is_ws c) eqn:Hc; [reflexivity|]. cbn. now rewrite Hc.
  - cbn [Js.trimEnd] in *. now rewrite IH.
Qed.

Lemma trimStart_head (s : string) :
  Js.trimStart s = "" \/
  exists c t, Js.trimStart s = String c t /\ Js.is_ws c = false.
Proof.
  induction s as [|c t IH]; [now left|]. cbn.
  destruct (Js.is_ws c) eqn:Hc; [exact IH|]. right. now exists c, t.
Qed.

Lemma trimEnd_head (c : ascii) (t : string) :
  Js.is_ws c = false ->
  exists r, Js.trimEnd (String c t) = String c r.
Proof.
  intros Hc. cbn. destruct (Js.trimEnd t); rewrite ?Hc; eexists; reflexivity.
Qed.

Lemma trim_idempotent (s : string) : Js.trim (Js.trim s) = Js.trim s.
Proof.
  unfold Js.trim at 2 3.
  destruct (trimStart_head s) as [->|(c & t & -> & Hc)]; [reflexivity|].
  destruct (trimEnd_head c t Hc) as [r E].
  unfold Js.trim. rewrite E. cbn [Js.trimStart]. rewrite Hc.
  now rewrite <- E, trimEnd_idempotent.
Qed.

Lemma occurs_trimStart (c : ascii) (s : string) :
  Spec.occurs c (Js.trimStart s) -> Spec.occurs c s.
Proof.
  unfold Spec.occurs. induction s as [|d t IH]; cbn; [tauto|].
  destruct (Js.is_ws d); [intros H; right; now apply IH|tauto].
Qed.

Lemma occurs_trimEnd (c : ascii) (s : string) :
  Spec.occurs c (Js.trimEnd s) -> Spec.occurs c s.
Proof.
  unfold Spec.occurs. induction s as [|d t IH]; cbn; [tauto|].
  destruct (Js.trimEnd t) as [|e r].
  - destruct (Js.is_ws d); cbn; tauto.
  - cbn in *. tauto.
Qed.

Lemma split_pieces (c : ascii) (s : string) :
  forall p, In p (Js.split c s) ->
            ~ Spec.occurs c p /\ (forall d, Spec.occurs d p -> Spec.occurs d s).
Proof.
  unfold Spec.occurs. induction s as [|a t IH]; intros p; cbn [Js.split].
  - intros [<-|[]]. cbn. tauto.
  - destruct (Ascii.eqb_spec a c) as [->|Hac].
    + intros [<-|H]; [cbn; tauto|].
      destruct (IH p H) as [H1 H2]. split; [exact H1|].
      intros d Hd. right. now apply H2.
    + destruct (Js.split c t) as [|h r] eqn:E.
      * intros [<-|[]]. cbn. intuition congruence.
      * intros [<-|H].
        -- destruct (IH h (or_introl eq_refl)) as [H1 H2]. cbn.
           split; [intuition congruence|].
           intros d [->|Hd]; [now left|right; now apply H2].
        -- destruct (IH p (or_intror H)) as [H1 H2]. split; [exact H1|].
           intros d Hd. right. now apply H2.
Qed.

(** Every item that [getCommaSeparatedInputList] returns is non-empty, is
    already trimmed and holds no comma. *)
Theorem getCommaSeparatedInputList_items (input : option string)
  (item : string) :
  In item (getCommaSeparatedInputList input) ->
  item <> "" /\ Js.trim item = item /\ ~ Spec.occurs "," item.
Proof.
  destruct input as [l|]; [|intros []].
  cbn [getCommaSeparatedInputList].
  rewrite filter_In, in_map_iff, negb_true_iff.
  intros [(piece & <- & Hp) Hne]. split; [|split].
  - now apply String.eqb_neq.
  - apply trim_idempotent.
  - intros H. apply occurs_trimEnd, occurs_trimStart in H.
    now apply (split_pieces "," l piece).
Qed.

Lemma getCommaSeparatedInputList_items_witness :
  getCommaSeparatedInputList (Some " bot-a ,, Bot-B,  ") = ["bot-a"; "Bot-B"]
  /\ "Bot-B" <> "" /\ Js.trim "Bot-B" = "Bot-B" /\ ~ Spec.occurs "," "Bot-B".
Proof.
  split; [reflexivity|].
  apply (getCommaSeparatedInputList_items (Some " bot-a ,, Bot-B,  ") "Bot-B").
  right. now left.
Defined.

(** *** Membership in the extracted set *)

Lemma customOwners_In (comment : string) (u : list string) (x : string) :
  In x (customOwners comment u) <-> In x (customOwners comment []) \/ In x u.
Proof.
  unfold customOwners.
  destruct (nth_error (Js.split_markers comment) 1) as [[|c t]|];
    try (cbn; tauto).
  fold (Spec.add_all (splitByWhitespace (String c t)) u).
  fold (Spec.add_all (splitByWhitespace (String c t)) []).
  rewrite !add_all_In. cbn. tauto.
Qed.

Lemma extract_line_In (st : list string * list event) (line o : string) :
  In o (fst (extract_line st line)) <->
  In o (fst st)
  \/ In o (customOwners (comment_of line) [])
  \/ Vocab.native_owner line o.
Proof.
  unfold extract_line, nativeOwners, Vocab.native_owner, Vocab.candidates.
  rewrite native_loop, tl_splitByWhitespace, ownersLine_before.
  cbn [fst]. rewrite add_all_In, in_map_iff, customOwners_In.
  split.
  - intros [(t & <- & Ht)|[H|H]]; [|tauto|tauto].
    apply filter_In in Ht as [Ht Hr]. apply negb_true_iff in Hr.
    right. right. now exists t.
  - intros [H|[H|(t & Ht & Hr & ->)]]; [tauto|tauto|].
    left. exists t. split; [reflexivity|].
    apply filter_In. split; [exact Ht|now apply negb_true_iff].
Qed.

Lemma extract_lines_In (lines : list string) (o : string) :
  forall st,
    In o (fst (fold_left extract_line lines st)) <->
    In o (fst st)
    \/ exists line,
        In line lines
        /\ (In o (customOwners (comment_of line) [])
            \/ Vocab.native_owner line o).
Proof.
  induction lines as [|l lines IH]; intros st; cbn [fold_left].
  - split; [tauto|]. intros [H|(line & [] & _)]. exact H.
  - rewrite IH, extract_line_In. split.
    + intros [[H|H]|(line & Hl & H)].
      * now left.
      * right. exists l. split; [now left|exact H].
      * right. exists line. split; [now right|exact H].
    + intros [H|(line & [<-|Hl] & H)].
      * left. now left.
      * left. now right.
      * right. now exists line.
Qed.

Lemma extract_In (content o : string) :
  In o (fst (extractGitHubUsernames content)) <->
  exists line,
    In line (Js.split nl content)
    /\ (In o (customOwners (comment_of line) [])
        \/ Vocab.native_owner line o).
Proof.
  unfold extractGitHubUsernames.
  destruct (String.eqb_spec content "") as [->|_].
  - split; [intros []|]. intros (line & [<-|[]] & [H|(t & [] & _)]).
    exact H.
  - rewrite extract_lines_In. cbn. tauto.
Qed.

(** An identifier is extracted from a document exactly when some line of it
    yields it: as a token of the triager annotation of the line, or as an
    accepted candidate of its declaration part without the '@'.  The lines
    contribute independently of each other. *)
Theorem extract_membership (content o : string) :
  In o (fst (extractGitHubUsernames content)) <->
  exists line,
    In line (Js.split nl content)
    /\ (In o (customOwners (comment_of line) [])
        \/ Vocab.native_owner line o).
Proof.
  unfold extractGitHubUsernames.
  destruct (String.eqb_spec content "") as [->|_].
  - split; [intros []|].
    intros (line & Hline & Hyield). destruct Hline as [<-|[]].
    destruct Hyield as [H|(t & [] & _)]. exact H.
  - rewrite extract_lines_In. split.
    + intros [[]|H]. exact H.
    + intros H. now right.
Qed.

Lemma before_no_separator (c : ascii) (s : string) :
  ~ Spec.occurs c s -> Spec.before c s = s.
Proof.
  unfold Spec.occurs. induction s as [|d t IH]; cbn; [reflexivity|].
  intros H. destruct (Ascii.eqb_spec d c) as [->|_]; [tauto|].
  rewrite IH; tauto.
Qed.

(** In a document without any '#' the annotation path adds nothing: the
    identifiers extracted are exactly the tokens after the first of some
    line that start with '@' and hold no '/', without the '@'. *)
Theorem extract_without_hash (content o : string) :
  ~ Spec.occurs "#" content ->
  (In o (fst (extractGitHubUsernames content)) <->
   exists line t,
     In line (Js.split nl content)
     /\ In t (tl (Spec.words line))
     /\ rejected t = false /\ o = Js.slice 1 t).
Proof.
  intros Hhash. rewrite extract_In.
  assert (Hline : forall line, In line (Js.split nl content) ->
                    ~ Spec.occurs "#" line).
  { intros line Hl H. apply Hhash.
    now apply (split_pieces nl content line). }
  split.
  - intros (line & Hl & H). exists line.
    pose proof (Hline line Hl) as Hn.
    destruct H as [H|(t & Ht & Hr & ->)].
    + unfold comment_of in H. rewrite (split_no_separator _ _ Hn) in H.
      destruct H.
    + unfold Vocab.candidates in Ht.
      rewrite (before_no_separator _ _ Hn) in Ht. now exists t.
  - intros (line & t & Hl & Ht & Hr & ->). exists line.
    split; [exact Hl|]. right. exists t.
    unfold Vocab.candidates.
    now rewrite (before_no_separator _ _ (Hline line Hl)).
Qed.

Lemma extract_without_hash_witness :
  In "alice" (fst (extractGitHubUsernames "/docs @bob @alice")) <->
  exists line t,
    In line (Js.split nl "/docs @bob @alice")
    /\ In t (tl (Spec.words line))
    /\ rejected t = false /\ "alice" = Js.slice 1 t.
Proof.
  apply (extract_without_hash "/docs @bob @alice" "alice").
  unfold Spec.occurs. cbn. intuition discriminate.
Defined.

(** A comment part in which neither triager marker occurs adds nothing to
    the set. *)
Theorem customOwners_without_marker (comment : string) (u : list string) :
  Spec.no_marker_in (S (String.length comment)) comment = true ->
  customOwners comment u = u.
Proof.
  intros H. unfold customOwners, Js.split_markers.
  pose proof (search_marker_none _ H) as Hn.
  destruct (String.length comment); cbn [Js.split_markers_fuel];
    now rewrite Hn.
Qed.

Lemma customOwners_without_marker_witness :
  customOwners " reviewers: @bob docTriagers" ["alice"] = ["alice"].
Proof.
  apply (customOwners_without_marker " reviewers: @bob docTriagers"
           ["alice"]).
  reflexivity.
Defined.

Lemma extract_lines_warnings (lines : list string) :
  forall st,
    snd (fold_left extract_line lines st) =
    snd st
      ++ flat_map
           (fun line =>
              map (fun t => Warning (skipping t))
                  (filter rejected (Vocab.candidates line)))
           lines.
Proof.
  induction lines as [|l lines IH]; intros st; cbn [fold_left flat_map].
  - now rewrite app_nil_r.
  - rewrite IH. unfold extract_line, nativeOwners.
    rewrite native_loop, tl_splitByWhitespace, ownersLine_before.
    cbn [snd]. now rewrite <- app_assoc.
Qed.

(** The diagnostics of the extractor are exactly one warning for each
    rejected candidate, line by line and in the order of the text; nothing
    else is reported, and the annotation path never warns. *)
Theorem extract_warnings_exact (content : string) :
  snd (extractGitHubUsernames content) =
  flat_map
    (fun line =>
       map (fun t => Warning (skipping t))
           (filter rejected (Vocab.candidates line)))
    (Js.split nl content).
Proof.
  unfold extractGitHubUsernames.
  destruct (String.eqb_spec content "") as [->|_]; [reflexivity|].
  now rewrite extract_lines_warnings.
Qed.

(** ** More on the collector *)

Lemma entry_from_more (files : list codeowners) (ignoredUsers : list string)
  (tr evs : list event) (k : string) (e : obj) :
  Vocab.entry_from files ignoredUsers tr k e ->
  Vocab.entry_from files ignoredUsers (tr ++ evs) k e.
Proof.
  intros [(o & p & Hin & Hk & Hf) Hr]. split; [|exact Hr].
  exists o, p. split; [apply in_or_app; now left|now split].
Qed.

Section CollectorMore.

Variable World : Type.
Variable getGitHubProfile : World -> string -> option obj * World.
Variable ignoredUsers : list string.
Variable files : list codeowners.

Local Abbreviation step := (collect_owner World getGitHubProfile ignoredUsers).
Local Abbreviation file_step :=
  (collect_file World getGitHubProfile ignoredUsers).
Local Abbreviation collect :=
  (collectCurrentMaintainers World getGitHubProfile ignoredUsers).
Local Abbreviation state := (cstate World).
Local Abbreviation sound st :=
  (Vocab.sound files ignoredUsers (currentMaintainers st) (trace st)).

Ltac owner_ways r st owner :=
  let H := fresh "H" in
  pose proof (collect_owner_cases World getGitHubProfile ignoredUsers
                r st owner) as H;
  cbv zeta in H;
  destruct H as
    [(Hi & E)
    |[(Hi & Hown & Hinh & w & Hp & E)
     |[(Hi & Hown & Hinh & p & w & Hp & E)
      |[(Hi & entry & l & Hown & Hrepos & E)
       |(Hi & E & Hwhy)]]]];
  rewrite E; cbn [state_of currentMaintainers world trace].

Lemma collect_owner_sound (r : string) (st : state) (owner : string) :
  Vocab.declares files r owner ->
  sound st -> sound (state_of (step r st owner)).
Proof.
  intros Hdecl (He & Hl & Hp0).
  assert (Hmore : forall evs k e,
             Obj.own_get (currentMaintainers st) k = Some e ->
             Vocab.entry_from files ignoredUsers (trace st ++ evs) k e).
  { intros evs k e H. now apply entry_from_more, He. }
  assert (Hnew : forall res,
             Js.array_includes owner ignoredUsers = false ->
             Obj.inherited (Js.toLowerCase owner) = false ->
             forall ev, In ev (trace st ++ [GetGitHubProfile owner res]) ->
                        Vocab.lookup_from files ignoredUsers ev).
  { intros res Hi Hinh ev Hev. apply in_app_or in Hev as [Hev|[<-|[]]].
    - now apply Hl.
    - cbn. repeat split; trivial. now exists r. }
  assert (Hkeep : forall e',
             Obj.inherited (Js.toLowerCase owner) = false ->
             forall k, Obj.inherited k = true ->
                       Obj.own_get
                         (Obj.set (currentMaintainers st)
                                  (Js.toLowerCase owner) e') k = None).
  { intros e' Hinh k Hk. rewrite own_get_set_other; [now apply Hp0|].
    intros ->. congruence. }
  owner_ways r st owner.
  - split; [|split]; [now apply Hmore| |exact Hp0].
    intros ev Hev. apply in_app_or in Hev as [Hev|[<-|[]]];
      [now apply Hl|exact I].
  - split; [|split]; [|  |exact Hp0].
    + intros k e H. rewrite <- app_assoc. now apply Hmore.
    + intros ev Hev. apply in_app_or in Hev as [Hev|[<-|[]]];
        [now apply (Hnew None)|exact I].
  - split; [|split].
    + intros k e. destruct (String.eqb_spec k (Js.toLowerCase owner))
        as [->|Hk].
      * rewrite own_get_set_same. intros [= <-]. split.
        -- exists owner, p. split; [apply in_or_app; right; now left|].
           split; [reflexivity|]. intros fld Hfld.
           now rewrite !own_get_set_other.
        -- exists [r]. split; [apply own_get_set_same|].
           split; [discriminate|]. intros r' [<-|[]]. now exists owner.
      * rewrite !own_get_set_other by exact Hk. apply Hmore.
    + now apply Hnew.
    + intros k Hk. rewrite own_get_set_other; [now apply Hkeep|].
      intros ->. congruence.
  - assert (Hinh : Obj.inherited (Js.toLowerCase owner) = false).
    { destruct (Obj.inherited (Js.toLowerCase owner)) eqn:Hinh;
        [|reflexivity].
      rewrite (Hp0 _ Hinh) in Hown. discriminate. }
    split; [|split]; [|exact Hl|now apply Hkeep].
    intros k e. destruct (String.eqb_spec k (Js.toLowerCase owner))
      as [->|Hk].
    + rewrite own_get_set_same. intros [= <-].
      destruct (He _ _ Hown) as [(o & p & Hin & Hko & Hf) (l0 & Hl0 & _ & Hr)].
      rewrite Hrepos in Hl0. injection Hl0 as <-. split.
      * exists o, p. split; [exact Hin|]. split; [exact Hko|].
        intros fld Hfld. rewrite own_get_set_other by exact Hfld.
        now apply Hf.
      * exists (l ++ [r]). split; [apply own_get_set_same|].
        split; [now destruct l|].
        intros r' Hr'. apply in_app_or in Hr' as [Hr'|[<-|[]]];
          [now apply Hr|now exists owner].
    + rewrite own_get_set_other by exact Hk. apply He.
  - now split.
Qed.

Lemma collect_file_sound (st : state) (f : codeowners) :
  In f files -> sound st -> sound (state_of (file_step st f)).
Proof.
  intros Hf (He & Hl & Hp0). unfold collect_file.
  pose proof (extract_warnings (content f)) as Hw.
  assert (Hdecl : forall o, In o (fst (extractGitHubUsernames (content f)))
                            -> Vocab.declares files (repo f) o).
  { intros o Ho. now exists f. }
  destruct (extractGitHubUsernames (content f)) as [owners warnings].
  cbn [fst snd] in *.
  apply (for_of_invariant (fun s => sound s)).
  - intros a o Ho. apply collect_owner_sound. now apply Hdecl.
  - cbn [currentMaintainers trace]. split; [|split]; [| |exact Hp0].
    + intros k e H. now apply entry_from_more, He.
    + intros ev Hev. apply in_app_or in Hev as [Hev|Hev]; [now apply Hl|].
      destruct (Hw ev Hev) as [m ->]. exact I.
Qed.

Lemma collect_sound (w : World) : sound (state_of (collect files w)).
Proof.
  unfold collectCurrentMaintainers.
  assert (H : sound (state_of (for_of file_step files
                                 (collect_start World w)))).
  { apply (for_of_invariant (fun s => sound s)).
    - intros a f Hf. now apply collect_file_sound.
    - split; [|split].
      + intros k e H. discriminate H.
      + intros ev [<-|[]]. exact I.
      + reflexivity. }
  destruct (for_of file_step files (collect_start World w)) as [st|st];
    cbn [state_of] in *; [|exact H].
  destruct H as (He & Hl & Hp0). cbn [currentMaintainers trace].
  split; [|split]; [| |exact Hp0].
  - intros k e H. now apply entry_from_more, He.
  - intros ev Hev. apply in_app_or in Hev as [Hev|[<-|[]]];
      [now apply Hl|exact I].
Qed.

(** Every entry of the collected map copies a profile that a lookup of this
    pass returned for a spelling of its key: all its fields but [repos] are
    those of the profile.  That spelling is declared in one of the documents
    and is not on the ignore list. *)
Theorem entry_copies_profile (w : World) (k : string) (e : obj) :
  Obj.own_get (currentMaintainers (state_of (collect files w))) k = Some e ->
  exists f o p,
    In f files /\ In o (fst (extractGitHubUsernames (content f)))
    /\ Js.toLowerCase o = k
    /\ Js.array_includes o ignoredUsers = false
    /\ In (GetGitHubProfile o (Some p)) (trace (state_of (collect files w)))
    /\ forall fld, fld <> "repos" -> Obj.own_get e fld = Obj.own_get p fld.
Proof.
  intros H. destruct (collect_sound w) as (He & Hl & _).
  destruct (He _ _ H) as [(o & p & Hin & Hk & Hf) _].
  destruct (Hl _ Hin) as (Hi & _ & r & f & Hfiles & _ & Ho).
  now exists f, o, p.
Qed.

(** The [repos] of every entry of the collected map is a non-empty array,
    and each repository in it is the repository of a document that names a
    spelling of the key that is not on the ignore list. *)
Theorem repos_are_attributed (w : World) (k : string) (e : obj) :
  Obj.own_get (currentMaintainers (state_of (collect files w))) k = Some e ->
  exists l,
    Obj.own_get e "repos" = Some (VArr l) /\ l <> []
    /\ forall r, In r l ->
         exists f o,
           In f files /\ repo f = r
           /\ In o (fst (extractGitHubUsernames (content f)))
           /\ Js.toLowerCase o = k
           /\ Js.array_includes o ignoredUsers = false.
Proof.
  intros H. destruct (collect_sound w) as (He & _ & _).
  destruct (He _ _ H) as [_ (l & Hl & Hne & Hr)].
  exists l. split; [exact Hl|]. split; [exact Hne|].
  intros r Hin. destruct (Hr r Hin) as (o & (f & Hf & Hrepo & Ho) & Hk & Hi).
  now exists f, o.
Qed.

(** A profile lookup is only made for an owner that some document names,
    that is not on the ignore list and whose lower-cased form is no property
    name of [Object.prototype]. *)
Theorem lookups_are_declared (w : World) (o : string) (res : option obj) :
  In (GetGitHubProfile o res) (trace (state_of (collect files w))) ->
  Js.array_includes o ignoredUsers = false
  /\ Obj.inherited (Js.toLowerCase o) = false
  /\ exists f, In f files /\ In o (fst (extractGitHubUsernames (content f))).
Proof.
  intros H. destruct (collect_sound w) as (_ & Hl & _).
  destruct (Hl _ H) as (Hi & Hinh & r & f & Hf & _ & Ho).
  split; [exact Hi|]. split; [exact Hinh|]. now exists f.
Qed.

(** Every key of the collected map is in lower case and is no property name
    of [Object.prototype]. *)
Theorem keys_are_lower_case (w : World) (k : string) :
  In k (Obj.keys (currentMaintainers (state_of (collect files w)))) ->
  Js.toLowerCase k = k /\ Obj.inherited k = false.
Proof.
  intros H. destruct (collect_sound w) as (He & _ & Hp0).
  destruct (Obj.own_get (currentMaintainers (state_of (collect files w))) k)
    as [e|] eqn:E.
  - destruct (He _ _ E) as [(o & p & _ & <- & _) _].
    split; [apply toLowerCase_idempotent|].
    destruct (Obj.inherited (Js.toLowerCase o)) eqn:Hinh; [|reflexivity].
    rewrite (Hp0 _ Hinh) in E. discriminate.
  - apply own_get_None_keys in E. contradiction.
Qed.

(** *** When the pass returns *)

Local Abbreviation no_own_prototype_key st :=
  (forall k, Obj.inherited k = true ->
             Obj.own_get (currentMaintainers st) k = None).

Lemma collect_owners_done (r : string) (owners : list string) :
  forall st st' : state,
    no_own_prototype_key st ->
    for_of (step r) owners st = Done st' ->
    (forall o, In o owners ->
               Js.array_includes o ignoredUsers = false ->
               Obj.inherited (Js.toLowerCase o) = false)
    /\ no_own_prototype_key st'.
Proof.
  induction owners as [|o owners IH]; intros st st' Hp0.
  - intros [= <-]. split; [intros o []|exact Hp0].
  - cbn [for_of].
    assert (Hset : forall e',
               Obj.inherited (Js.toLowerCase o) = false ->
               forall k, Obj.inherited k = true ->
                         Obj.own_get
                           (Obj.set (currentMaintainers st)
                                    (Js.toLowerCase o) e') k = None).
    { intros e' Hinh k Hk. rewrite own_get_set_other; [now apply Hp0|].
      intros ->. congruence. }
    assert (Hhead : forall st1,
               no_own_prototype_key st1 ->
               (Js.array_includes o ignoredUsers = false ->
                Obj.inherited (Js.toLowerCase o) = false) ->
               for_of (step r) owners st1 = Done st' ->
               (forall o', In o' (o :: owners) ->
                           Js.array_includes o' ignoredUsers = false ->
                           Obj.inherited (Js.toLowerCase o') = false)
               /\ no_own_prototype_key st').
    { intros st1 H1 Ho Hdone. destruct (IH st1 st' H1 Hdone) as [Hall Hend].
      split; [|exact Hend]. intros o' [<-|Hin]; [exact Ho|now apply Hall]. }
    owner_ways r st o.
    + apply Hhead; [exact Hp0|congruence].
    + apply Hhead; [exact Hp0|trivial].
    + apply Hhead; [|trivial]. cbn [currentMaintainers].
      intros k Hk. rewrite own_get_set_other; [now apply Hset|].
      intros ->. congruence.
    + assert (Hinh : Obj.inherited (Js.toLowerCase o) = false).
      { destruct (Obj.inherited (Js.toLowerCase o)) eqn:Hinh; [|reflexivity].
        rewrite (Hp0 _ Hinh) in Hown. discriminate. }
      apply Hhead; [|trivial]. cbn [currentMaintainers]. now apply Hset.
    + discriminate.
Qed.

Lemma collect_files_done (fs : list codeowners) :
  forall st st' : state,
    no_own_prototype_key st ->
    for_of file_step fs st = Done st' ->
    (forall f o, In f fs ->
                 In o (fst (extractGitHubUsernames (content f))) ->
                 Js.array_includes o ignoredUsers = false ->
                 Obj.inherited (Js.toLowerCase o) = false)
    /\ no_own_prototype_key st'.
Proof.
  induction fs as [|f fs IH]; intros st st' Hp0.
  - intros [= <-]. split; [intros f o []|exact Hp0].
  - cbn [for_of]. destruct (file_step st f) as [st1|st1] eqn:E;
      [|discriminate].
    intros Hdone. unfold collect_file in E.
    destruct (extractGitHubUsernames (content f)) as [owners warnings] eqn:X.
    apply collect_owners_done in E as [Hf H1]; [|exact Hp0].
    destruct (IH st1 st' H1 Hdone) as [Hall Hend].
    split; [|exact Hend].
    intros f' o [<-|Hin]; [|now apply Hall].
    rewrite X. exact (Hf o).
Qed.

(** The pass returns its map exactly when no owner that is named in the
    documents and not ignored has, in lower case, the name of a property of
    [Object.prototype] ([constructor], [__proto__]); otherwise it ends with a
    [TypeError]. *)
Theorem collect_returns_iff (w : World) :
  (exists st, collect files w = Done st) <->
  (forall f o,
      In f files ->
      In o (fst (extractGitHubUsernames (content f))) ->
      Js.array_includes o ignoredUsers = false ->
      Obj.inherited (Js.toLowerCase o) = false).
Proof.
  unfold collectCurrentMaintainers. split.
  - intros [st H].
    destruct (for_of file_step files (collect_start World w)) as [st1|st1]
      eqn:E; [|discriminate].
    apply collect_files_done in E as [Hall _]; [exact Hall|reflexivity].
  - intros Hall.
    destruct (collect_files_returns World getGitHubProfile ignoredUsers files
                (fun f Hf o Ho => Hall f o Hf Ho) (collect_start World w))
      as (st1 & -> & _).
    + split; [intros k e; discriminate|constructor].
    + eexists. reflexivity.
Qed.

(** *** Lookups that all succeed *)

Lemma found_lookups_once (tr : list event) :
  Spec.no_lookup_after_profile tr ->
  (forall o, ~ In (GetGitHubProfile o None) tr) ->
  NoDup (Spec.lookup_keys tr).
Proof.
  induction tr as [|ev tr IH]; intros Hs Hfound; [constructor|].
  assert (Hs' : Spec.no_lookup_after_profile tr).
  { intros before o p after E.
    apply (Hs (ev :: before) o p after). now rewrite E. }
  assert (Hf' : forall o, ~ In (GetGitHubProfile o None) tr).
  { intros o H. apply (Hfound o). now right. }
  specialize (IH Hs' Hf').
  destruct ev as [t| |m|m|m|o [p|]]; try exact IH.
  - cbn. constructor; [|exact IH]. exact (Hs [] o p tr eq_refl).
  - exfalso. apply (Hfound o). now left.
Qed.

(** In a pass in which no lookup came back without a profile, no two lookups
    are made for the same lower-cased username. *)
Theorem lookups_once_when_found (w : World) :
  (forall o, ~ In (GetGitHubProfile o None)
               (trace (state_of (collect files w)))) ->
  NoDup (Spec.lookup_keys (trace (state_of (collect files w)))).
Proof.
  intros H. apply found_lookups_once; [|exact H].
  apply (collect_settled World getGitHubProfile ignoredUsers files w).
Qed.

End CollectorMore.

(** *** The further facts on a concrete pass *)

Lemma entry_copies_profile_witness :
  exists f o p,
    In f [Sample.doc "A" "* @Alice @bot"; Sample.doc "B" "* @alice"]
    /\ In o (fst (extractGitHubUsernames (content f)))
    /\ Js.toLowerCase o = "alice"
    /\ Js.array_includes o ["bot"] = false
    /\ In (GetGitHubProfile o (Some p))
          (trace
             (state_of
                (collectCurrentMaintainers nat Sample.found ["bot"]
                   [Sample.doc "A" "* @Alice @bot"; Sample.doc "B" "* @alice"]
                   0)))
    /\ forall fld,
        fld <> "repos" ->
        Obj.own_get [("github", VStr "Alice"); ("githubID", VNum 0);
                     ("repos", VArr ["A"; "B"])] fld
        = Obj.own_get p fld.
Proof.
  apply (entry_copies_profile nat Sample.found ["bot"]
           [Sample.doc "A" "* @Alice @bot"; Sample.doc "B" "* @alice"]
           0 "alice").
  reflexivity.
Defined.

Lemma repos_are_attributed_witness :
  exists l,
    Obj.own_get [("github", VStr "Alice"); ("githubID", VNum 0);
                 ("repos", VArr ["A"; "B"])] "repos" = Some (VArr l)
    /\ l <> []
    /\ forall r, In r l ->
         exists f o,
           In f [Sample.doc "A" "* @Alice @bot"; Sample.doc "B" "* @alice"]
           /\ repo f = r
           /\ In o (fst (extractGitHubUsernames (content f)))
           /\ Js.toLowerCase o = "alice"
           /\ Js.array_includes o ["bot"] = false.
Proof.
  apply (repos_are_attributed nat Sample.found ["bot"]
           [Sample.doc "A" "* @Alice @bot"; Sample.doc "B" "* @alice"]
           0 "alice").
  reflexivity.
Defined.

Lemma lookups_are_declared_witness :
  Js.array_includes "ghost" ["bot"] = false
  /\ Obj.inherited (Js.toLowerCase "ghost") = false
  /\ exists f,
      In f [Sample.doc "A" "* @ghost @bot"]
      /\ In "ghost" (fst (extractGitHubUsernames (content f))).
Proof.
  apply (lookups_are_declared nat Sample.missing ["bot"]
           [Sample.doc "A" "* @ghost @bot"] 0 "ghost" None).
  vm_compute. right. now left.
Defined.

Lemma keys_are_lower_case_witness :
  Js.toLowerCase "alice" = "alice" /\ Obj.inherited "alice" = false.
Proof.
  apply (keys_are_lower_case nat Sample.found []
           [Sample.doc "A" "* @Alice"] 0 "alice").
  vm_compute. now left.
Defined.

Lemma lookups_once_when_found_witness :
  NoDup
    (Spec.lookup_keys
       (trace
          (state_of
             (collectCurrentMaintainers nat Sample.found []
                [Sample.doc "A" "* @Alice @bob"; Sample.doc "B" "* @alice"]
                0)))).
Proof.
  apply (lookups_once_when_found nat Sample.found []
           [Sample.doc "A" "* @Alice @bob"; Sample.doc "B" "* @alice"] 0).
  intros o H. vm_compute in H.
  repeat (destruct H as [H|H]; [discriminate H|]). exact H.
Defined.

(** ** More on the reconciler *)

Lemma removals_app (a b : list event) :
  Vocab.removals (a ++ b) = Vocab.removals a + Vocab.removals b.
Proof. unfold Vocab.removals. now rewrite filter_app, length_app. Qed.

Lemma refresh_loop_accounts (previous : list obj) :
  forall st,
    forallb Spec.has_github previous = true ->
    exists st' upd,
      for_of refresh_entry previous st = Done st'
      /\ updatedMaintainers st' = updatedMaintainers st ++ upd
      /\ List.length upd + Vocab.removals (rtrace st')
         = Vocab.removals (rtrace st) + List.length previous.
Proof.
  induction previous as [|r rest IH]; intros st H.
  - exists st, []. rewrite app_nil_r. cbn. split; [reflexivity|].
    split; [reflexivity|lia].
  - cbn [forallb] in H. apply andb_prop in H as [Hr Hrest].
    destruct (has_github_inv _ Hr) as (g & Hg & _ & _).
    cbn [for_of]. unfold refresh_entry at 1, Obj.get. rewrite Hg.
    destruct (Obj.own_get (remaining st) (Js.toLowerCase g)) as [e|];
      [|destruct (Obj.inherited (Js.toLowerCase g))];
      cbv beta iota;
      match goal with
      | |- context [for_of refresh_entry rest ?s] =>
          destruct (IH s Hrest) as (st' & upd & E & U & L); rewrite E
      end;
      cbn [updatedMaintainers rtrace] in U, L.
    + eexists. eexists. split; [reflexivity|]. split.
      * rewrite U, <- app_assoc. reflexivity.
      * rewrite length_app. cbn [List.length app]. lia.
    + eexists. eexists. split; [reflexivity|]. split.
      * rewrite U, <- app_assoc. reflexivity.
      * rewrite length_app. cbn [List.length app]. lia.
    + exists st', upd. split; [reflexivity|]. split; [exact U|].
      rewrite removals_app in L. cbn in L. cbn [List.length]. lia.
Qed.

(** No previous record is lost without notice: in the returned roster the
    records placed before the newly discovered maintainers, together with
    the removal notices written, are as many as the previous records. *)
Theorem refresh_accounts_for_every_record (previous : list obj)
  (current : props obj) :
  forallb Spec.has_github previous = true ->
  exists st upd,
    refreshPreviousMaintainers previous current = Done st
    /\ updatedMaintainers st = upd ++ Obj.values (remaining st)
    /\ List.length upd + Vocab.removals (rtrace st) = List.length previous.
Proof.
  intros H. unfold refreshPreviousMaintainers.
  destruct (refresh_loop_accounts previous (refresh_start current) H)
    as (st' & upd & -> & U & L).
  eexists. exists upd. split; [reflexivity|].
  cbn [updatedMaintainers remaining rtrace]. split.
  - now rewrite U.
  - rewrite removals_app. cbn in *. lia.
Qed.

Lemma refresh_accounts_for_every_record_witness :
  exists st upd,
    refreshPreviousMaintainers
      [[("github", VStr "Alice")]; [("github", VStr "dave")];
       [("github", VStr "constructor")]]
      [("alice", [("github", VStr "alice"); ("repos", VArr ["A"])])]
    = Done st
    /\ updatedMaintainers st = upd ++ Obj.values (remaining st)
    /\ List.length upd + Vocab.removals (rtrace st) = 3.
Proof.
  apply (refresh_accounts_for_every_record
           [[("github", VStr "Alice")]; [("github", VStr "dave")];
            [("github", VStr "constructor")]]
           [("alice", [("github", VStr "alice"); ("repos", VArr ["A"])])]).
  reflexivity.
Defined.

Lemma refresh_loop_done (previous : list obj) :
  forall st st',
    for_of refresh_entry previous st = Done st' ->
    forallb Spec.has_github previous = true.
Proof.
  induction previous as [|r rest IH]; intros st st'; [reflexivity|].
  cbn [for_of forallb]. unfold refresh_entry at 1, Spec.has_github at 1.
  destruct (Obj.own_get r "github") as [[| | |g|]|]; try discriminate.
  destruct (Obj.get (remaining st) (Js.toLowerCase g)); apply IH.
Qed.

(** The reconciler returns a roster exactly when every previous record has
    a [github] field that is a string; a record without one ends the call
    with a [TypeError]. *)
Theorem refresh_returns_iff (previous : list obj) (current : props obj) :
  (exists st, refreshPreviousMaintainers previous current = Done st) <->
  forallb Spec.has_github previous = true.
Proof.
  unfold refreshPreviousMaintainers. split.
  - intros [st H].
    destruct (for_of refresh_entry previous (refresh_start current))
      as [st1|st1] eqn:E; [|discriminate].
    exact (refresh_loop_done _ _ _ E).
  - intros H.
    destruct (refresh_loop_remaining previous (refresh_start current) H)
      as (st' & -> & _). eexists. reflexivity.
Qed.

Lemma own_get_In {A : Type} (o : props A) (k : string) (a : A) :
  Obj.own_get o k = Some a -> In (k, a) o.
Proof.
  induction o as [|[k0 a0] r IH]; cbn; [discriminate|].
  destruct (String.eqb_spec k0 k) as [->|_].
  - intros [= ->]. now left.
  - intros H. right. now apply IH.
Qed.

Lemma delete_subset {A : Type} (o : props A) (k : string) (p : string * A) :
  In p (Obj.delete o k) -> In p o.
Proof. unfold Obj.delete. intros H. now apply filter_In in H. Qed.

Lemma refresh_loop_current (current : props obj) (Q : obj -> Prop)
  (previous : list obj) :
  (forall p k e,
      In p previous -> In (k, e) current ->
      Q (updated_entry p (Obj.field e "repos") (Obj.field e "githubID"))) ->
  (forall p,
      In p previous -> Obj.inherited (Spec.record_key p) = true ->
      Q (updated_entry p VUndefined VUndefined)) ->
  forall st st',
    (forall x, In x (remaining st) -> In x current) ->
    (forall r, In r (updatedMaintainers st) -> Q r) ->
    for_of refresh_entry previous st = Done st' ->
    (forall x, In x (remaining st') -> In x current)
    /\ (forall r, In r (updatedMaintainers st') -> Q r).
Proof.
  induction previous as [|p rest IH]; intros Hown Hinh st st' Hsub HQ.
  - intros [= <-]. now split.
  - assert (Hown' : forall p k e,
               In p rest -> In (k, e) current ->
               Q (updated_entry p (Obj.field e "repos")
                                (Obj.field e "githubID"))).
    { intros p0 k e Hp. apply Hown. now right. }
    assert (Hinh' : forall p,
               In p rest -> Obj.inherited (Spec.record_key p) = true ->
               Q (updated_entry p VUndefined VUndefined)).
    { intros p0 Hp. apply Hinh. now right. }
    cbn [for_of]. unfold refresh_entry at 1, Obj.get.
    pose proof (Hinh p (or_introl eq_refl)) as Hp.
    unfold Spec.record_key in Hp.
    destruct (Obj.own_get p "github") as [[| | |g|]|]; try discriminate.
    destruct (Obj.own_get (remaining st) (Js.toLowerCase g)) as [e|] eqn:E;
      [|destruct (Obj.inherited (Js.toLowerCase g))];
      apply (IH Hown' Hinh'); cbn [remaining updatedMaintainers];
      try exact Hsub; try exact HQ.
    + intros x Hx. now apply Hsub, (delete_subset _ _ _ Hx).
    + intros r Hr. apply in_app_or in Hr as [Hr|[<-|[]]]; [now apply HQ|].
      apply (Hown p (Js.toLowerCase g) e); [now left|].
      now apply Hsub, own_get_In.
    + intros x Hx. now apply Hsub, (delete_subset _ _ _ Hx).
    + intros r Hr. apply in_app_or in Hr as [Hr|[<-|[]]]; [now apply HQ|].
      now apply Hp.
Qed.

(** No stale attribution: every record of the returned roster has the
    [repos] and the [githubID] of an entry of the current map, whatever the
    previous record held; the one exception is a previous record whose key
    is a property name of [Object.prototype], which can be returned with
    both fields undefined. *)
Theorem refresh_repos_are_current (previous : list obj) (current : props obj)
  (st : rstate) (r : obj) :
  refreshPreviousMaintainers previous current = Done st ->
  In r (updatedMaintainers st) ->
  (exists k e,
      In (k, e) current
      /\ Obj.field r "repos" = Obj.field e "repos"
      /\ Obj.field r "githubID" = Obj.field e "githubID")
  \/ (exists p,
        In p previous /\ Obj.inherited (Spec.record_key p) = true
        /\ Obj.field r "repos" = VUndefined
        /\ Obj.field r "githubID" = VUndefined).
Proof.
  unfold refreshPreviousMaintainers.
  destruct (for_of refresh_entry previous (refresh_start current))
    as [st1|st1] eqn:E; [|discriminate].
  intros [= <-]. cbn [updatedMaintainers]. revert r.
  assert (Hfields : forall p a b,
             Obj.field (updated_entry p a b) "repos" = a
             /\ Obj.field (updated_entry p a b) "githubID" = b).
  { intros p a b. unfold updated_entry, Obj.field.
    rewrite own_get_set_other by discriminate.
    now rewrite !own_get_set_same. }
  apply (refresh_loop_current current
           (fun r =>
              (exists k e,
                  In (k, e) current
                  /\ Obj.field r "repos" = Obj.field e "repos"
                  /\ Obj.field r "githubID" = Obj.field e "githubID")
              \/ (exists p,
                    In p previous
                    /\ Obj.inherited (Spec.record_key p) = true
                    /\ Obj.field r "repos" = VUndefined
                    /\ Obj.field r "githubID" = VUndefined))
           previous) in E as [Hsub HQ].
  - intros r Hr. apply in_app_or in Hr as [Hr|Hr]; [now apply HQ|].
    unfold Obj.values in Hr. apply in_map_iff in Hr as ([k e] & <- & Hin).
    left. exists k, e. split; [now apply Hsub|now split].
  - intros p k e Hp Hin. left. exists k, e. split; [exact Hin|].
    apply Hfields.
  - intros p Hp Hinh. right. exists p. split; [exact Hp|].
    split; [exact Hinh|]. apply Hfields.
  - intros x Hx. exact Hx.
  - intros r [].
Qed.

Lemma refresh_repos_are_current_witness :
  (exists k e,
      In (k, e)
         [("eve", [("github", VStr "eve"); ("githubID", VNum 5);
                   ("repos", VArr ["R1"])])]
      /\ Obj.field [("github", VStr "Eve"); ("repos", VArr ["R1"]);
                    ("githubID", VNum 5)] "repos"
         = Obj.field e "repos"
      /\ Obj.field [("github", VStr "Eve"); ("repos", VArr ["R1"]);
                    ("githubID", VNum 5)] "githubID"
         = Obj.field e "githubID")
  \/ (exists p,
        In p [[("github", VStr "Eve"); ("repos", VArr ["R0"])]]
        /\ Obj.inherited (Spec.record_key p) = true
        /\ Obj.field [("github", VStr "Eve"); ("repos", VArr ["R1"]);
                      ("githubID", VNum 5)] "repos" = VUndefined
        /\ Obj.field [("github", VStr "Eve"); ("repos", VArr ["R1"]);
                      ("githubID", VNum 5)] "githubID" = VUndefined).
Proof.
  apply (refresh_repos_are_current
           [[("github", VStr "Eve"); ("repos", VArr ["R0"])]]
           [("eve", [("github", VStr "eve"); ("githubID", VNum 5);
                     ("repos", VArr ["R1"])])]
           {| remaining := [];
              updatedMaintainers :=
                [[("github", VStr "Eve"); ("repos", VArr ["R1"]);
                  ("githubID", VNum 5)]];
              rtrace := [StartGroup "Refreshing previous maintainers list";
                         EndGroup] |}).
  - reflexivity.
  - now left.
Defined.
